(** * ATM location search: a shallow embedding of [app.py]

    The development follows the class [ATMSearchTool] of [app.py] and the
    branch of [main] that performs a search.  Definitions come first:

    - [Haversine]: [haversine_distance];
    - [PyStr]: the Python string operations the code calls;
    - [Zip]: the stripping pass, [clean_zip], the validity mask and
      [diagnose_zip_issue];
    - [Frame]: tables, rows and the state of a session;
    - [Resolver]: [get_zip_coordinates] with its cache;
    - [Loader]: [load_excel_file], [process_zip_codes], [add_coordinates]
      and [export_invalid_zips];
    - [Search]: [search_atms_by_radius] and the search branch of [main];
    - [Session]: sequences of calls on one tool;
    - [Samples]: small tables and lookup services for the examples.

    The properties follow, module by module.

    Modelling conventions.  A Python [float] is read as a real number:
    rounding is not modelled, so nothing here speaks of what rounding alone
    causes (a sum that is 0 over the reals and comes out negative, say).
    [math.sqrt] and [math.asin] raise [ValueError] outside their domains,
    which is an [option] here.  A missing value ([None] or NaN) is [None].  A Python [str] is a [string]
    whose characters are read as Latin-1 code points.  A function that can
    raise returns an [option], [None] standing for the exception its caller
    catches.  The methods of the tool pass the state of the session
    explicitly; the lookup service and the sort of pandas are parameters. *)

From Stdlib Require Import Reals Lra Psatz.
From Stdlib Require Import String Ascii List Bool ZArith Lia DecimalString.
From Stdlib Require Import Sorting.Sorted Sorting.Permutation.
From stdpp Require Import base gmap strings.
Import ListNotations.

Local Open Scope R_scope.

(** * Distance calculator *)

Module Haversine.

(** [math.radians]. *)
Definition radians (x : R) : R := x * (PI / 180).

(** [math.sqrt]: [ValueError] on a negative argument. *)
Definition math_sqrt (x : R) : option R :=
  if Rlt_dec x 0 then None else Some (sqrt x).

(** [math.asin]: [ValueError] outside [[-1, 1]]. *)
Definition math_asin (x : R) : option R :=
  if Rlt_dec x (-1) then None
  else if Rlt_dec 1 x then None
  else Some (asin x).

(** The intermediate value [a] of [haversine_distance], on the arguments
    already converted to radians. *)
Definition hav_a (lat1 lon1 lat2 lon2 : R) : R :=
  let dlat := lat2 - lat1 in
  let dlon := lon2 - lon1 in
  (sin (dlat / 2)) ^ 2 + cos lat1 * cos lat2 * (sin (dlon / 2)) ^ 2.

(** Radius of earth in miles. *)
Definition r : R := 3956.

(** [haversine_distance]; [None] is the [ValueError] of [math.sqrt] or
    [math.asin].  With the arithmetic read over the reals [a] lies between
    0 and 1 and neither call fails; in binary64 [a] can come out just below
    0 (two points that coincide, one of them given with a latitude beyond
    90 degrees), and [math.sqrt] then raises.  What is stated of a distance
    is therefore stated of a call that returns. *)
Definition haversine_distance (lat1 lon1 lat2 lon2 : R) : option R :=
  let lat1 := radians lat1 in
  let lon1 := radians lon1 in
  let lat2 := radians lat2 in
  let lon2 := radians lon2 in
  let a := hav_a lat1 lon1 lat2 lon2 in
  match math_sqrt a with
  | None => None
  | Some s =>
      match math_asin s with
      | None => None
      | Some t => let c := 2 * t in Some (c * r)
      end
  end.

(** The haversine formula as the specification words it: the haversine of
    an angle, the haversine of the central angle between two points given
    in radians, and the great-circle distance on a sphere of radius [rad]
    for points given in degrees. *)
Definition hav (theta : R) : R := (1 - cos theta) / 2.

Definition hav_central (phi1 lam1 phi2 lam2 : R) : R :=
  hav (phi2 - phi1) + cos phi1 * cos phi2 * hav (lam2 - lam1).

Definition great_circle (rad lat1 lon1 lat2 lon2 : R) : R :=
  2 * rad * asin (sqrt (hav_central (lat1 * PI / 180) (lon1 * PI / 180)
                                    (lat2 * PI / 180) (lon2 * PI / 180))).

End Haversine.

(** * Python strings *)

Module PyStr.

Local Open Scope nat_scope.

(** Code point of a character. *)
Definition ord (c : ascii) : nat := nat_of_ascii c.

Definition between (lo hi n : nat) : bool := (lo <=? n) && (n <=? hi).

(** The class [\d] of a regular expression on [str]: decimal digits. *)
Definition re_digit (c : ascii) : bool := between 48 57 (ord c).

(** [c.isdigit()]: the decimal digits and the superscript digits. *)
Definition isdigit_char (c : ascii) : bool :=
  between 48 57 (ord c) || (ord c =? 178) || (ord c =? 179) || (ord c =? 185).

(** [c.isspace()]. *)
Definition isspace_char (c : ascii) : bool :=
  between 9 13 (ord c) || between 28 32 (ord c) || (ord c =? 133) || (ord c =? 160).

(** [c.lower()]. *)
Definition lower_char (c : ascii) : ascii :=
  let n := ord c in
  if between 65 90 n || (between 192 222 n && negb (n =? 215))
  then ascii_of_nat (n + 32) else c.

Definition hyphen : ascii := "-"%char.

Definition is_empty (s : string) : bool :=
  match s with EmptyString => true | String _ _ => false end.

Fixpoint forallb_str (p : ascii -> bool) (s : string) : bool :=
  match s with
  | EmptyString => true
  | String c s' => p c && forallb_str p s'
  end.

Fixpoint existsb_str (p : ascii -> bool) (s : string) : bool :=
  match s with
  | EmptyString => false
  | String c s' => p c || existsb_str p s'
  end.

Fixpoint filter_str (p : ascii -> bool) (s : string) : string :=
  match s with
  | EmptyString => EmptyString
  | String c s' => if p c then String c (filter_str p s') else filter_str p s'
  end.

(** [s.isdigit()]: at least one character, all of them digits. *)
Definition isdigit (s : string) : bool := negb (is_empty s) && forallb_str isdigit_char s.

(** [s.lower()]. *)
Fixpoint lower (s : string) : string :=
  match s with
  | EmptyString => EmptyString
  | String c s' => String (lower_char c) (lower s')
  end.

Fixpoint lstrip (s : string) : string :=
  match s with
  | EmptyString => EmptyString
  | String c s' => if isspace_char c then lstrip s' else s
  end.

Fixpoint rstrip (s : string) : string :=
  match s with
  | EmptyString => EmptyString
  | String c s' =>
      let t := rstrip s' in
      if isspace_char c && is_empty t then EmptyString else String c t
  end.

(** [s.strip()]. *)
Definition strip (s : string) : string := rstrip (lstrip s).

(** [len(s)]. *)
Definition len (s : string) : nat := String.length s.

(** [c in s] for a one-character [c]. *)
Definition contains (c : ascii) (s : string) : bool := existsb_str (Ascii.eqb c) s.

(** [s.split(c)[0]]: what precedes the first [c], all of [s] without one. *)
Fixpoint split_head (c : ascii) (s : string) : string :=
  match s with
  | EmptyString => EmptyString
  | String d s' => if Ascii.eqb d c then EmptyString else String d (split_head c s')
  end.

(** [s[:n]]. *)
Fixpoint take (n : nat) (s : string) : string :=
  match n, s with
  | S n', String c s' => String c (take n' s')
  | _, _ => EmptyString
  end.

Fixpoint zeros (n : nat) : string :=
  match n with O => EmptyString | S n' => String "0"%char (zeros n') end.

(** [s.zfill(width)]: zeros go after a leading sign. *)
Definition zfill (width : nat) (s : string) : string :=
  let n := len s in
  if width <=? n then s
  else match s with
       | String c s' =>
           if Ascii.eqb c "+"%char || Ascii.eqb c "-"%char
           then String c (String.append (zeros (width - n)) s')
           else String.append (zeros (width - n)) s
       | EmptyString => zeros width
       end.

(** [x in l] for a list of strings. *)
Definition str_in (x : string) (l : list string) : bool := existsb (String.eqb x) l.

(** [str(n)] for a natural number. *)
Definition str_of_nat (n : nat) : string := NilEmpty.string_of_uint (Nat.to_uint n).

End PyStr.

(** * Postal code normalizer *)

Module Zip.
Import PyStr.
Local Open Scope string_scope.

(** [astype(str)] on one cell: a missing value reads ["nan"]. *)
Definition astype_str (v : option string) : string :=
  match v with Some s => s | None => "nan" end.

(** A character the pattern [[^\d-]] does not match: a digit or a hyphen. *)
Definition kept (c : ascii) : bool := re_digit c || Ascii.eqb c hyphen.

(** [str.replace(r'[^\d-]', '', regex=True)] on one value. *)
Definition strip_pass (s : string) : string := filter_str kept s.

(** [clean_zip] on one cell of the [working_zip] column; [None] is a
    missing value, for which [pd.isna] holds. *)
Definition clean_zip (zip_code : option string) : option string :=
  match zip_code with
  | None => None
  | Some zip_code =>
      if str_in (lower zip_code) ["nan"; "none"; EmptyString] then None
      else
        let zip_str := strip zip_code in
        let zip_str := strip zip_str in
        let zip_str :=
          if contains hyphen zip_str then split_head hyphen zip_str else zip_str in
        if isdigit zip_str then
          if (len zip_str <=? 5)%nat then Some (zfill 5 zip_str)
          else if (len zip_str =? 9)%nat then Some (take 5 zip_str)
          else None
        else None
  end.

(** One entry of [valid_mask]; a missing [cleaned_zip] has no length. *)
Definition valid_mask (cleaned_zip : option string) : bool :=
  match cleaned_zip with
  | Some z => (len z =? 5)%nat && isdigit z
  | None => false
  end.

(** [diagnose_zip_issue]. *)
Definition diagnose_zip_issue (original_zip cleaned_zip : option string) : string :=
  match original_zip with
  | None => "Missing/Empty zip code"
  | Some original_zip =>
      if str_in (lower original_zip) ["nan"; "none"; EmptyString] then "Missing/Empty zip code"
      else
        let original_str := strip original_zip in
        if is_empty original_str then "Empty zip code"
        else if negb (existsb_str isdigit_char original_str) then "No digits in zip code"
        else
          let digits_only := filter_str isdigit_char original_str in
          let n := len digits_only in
          if (n <? 5)%nat then "Too few digits (" ++ str_of_nat n ++ " digits)"
          else if (9 <? n)%nat then "Too many digits (" ++ str_of_nat n ++ " digits)"
          else if existsb (Nat.eqb n) [6; 7; 8]%nat
               then "Unusual zip length (" ++ str_of_nat n ++ " digits)"
          else "Other zip format issue"
  end.

End Zip.

(** * Tables and the session *)

Module Frame.

(** A value of the [distance_miles] column: a finite number of miles or
    [float('inf')]. *)
Inductive distance :=
| Miles (d : R)
| Inf.

(** One row of the table.  A row keeps the cells the code reads or writes,
    under the column names in force after the renaming of
    [load_excel_file]; a cell counts only while its column is listed in the
    frame.  Postal cells are held as text (what [astype(str)] sees), [None]
    being a missing value; [index] is the row label, the position at
    ingestion. *)
Record row := Row {
  index : nat;
  zip_short : option string;
  zip : option string;
  working_zip : option string;
  cleaned_zip : option string;
  zip_issue : option string;
  latitude : option R;
  longitude : option R;
  distance_miles : distance
}.

Record frame := Frame {
  columns : list string;
  rows : list row
}.

(** [pd.DataFrame()]. *)
Definition empty_frame : frame := Frame [] [].

(** [f.empty]: some axis has length zero. *)
Definition empty (f : frame) : bool :=
  match columns f, rows f with
  | [], _ | _, [] => true
  | _, _ => false
  end.

Definition has_column (c : string) (cols : list string) : bool :=
  existsb (String.eqb c) cols.

(** The column index after [df[c] = ...]. *)
Definition add_column (c : string) (cols : list string) : list string :=
  if has_column c cols then cols else cols ++ [c].

Definition set_working_zip (v : option string) (x : row) : row :=
  Row (index x) (zip_short x) (zip x) v (cleaned_zip x) (zip_issue x)
      (latitude x) (longitude x) (distance_miles x).

Definition set_cleaned_zip (v : option string) (x : row) : row :=
  Row (index x) (zip_short x) (zip x) (working_zip x) v (zip_issue x)
      (latitude x) (longitude x) (distance_miles x).

Definition set_zip (v : option string) (x : row) : row :=
  Row (index x) (zip_short x) v (working_zip x) (cleaned_zip x) (zip_issue x)
      (latitude x) (longitude x) (distance_miles x).

Definition set_zip_issue (v : option string) (x : row) : row :=
  Row (index x) (zip_short x) (zip x) (working_zip x) (cleaned_zip x) v
      (latitude x) (longitude x) (distance_miles x).

Definition set_latitude (v : option R) (x : row) : row :=
  Row (index x) (zip_short x) (zip x) (working_zip x) (cleaned_zip x) (zip_issue x)
      v (longitude x) (distance_miles x).

Definition set_longitude (v : option R) (x : row) : row :=
  Row (index x) (zip_short x) (zip x) (working_zip x) (cleaned_zip x) (zip_issue x)
      (latitude x) v (distance_miles x).

Definition set_distance_miles (v : distance) (x : row) : row :=
  Row (index x) (zip_short x) (zip x) (working_zip x) (cleaned_zip x) (zip_issue x)
      (latitude x) (longitude x) v.

(** The dictionary [{'latitude': ..., 'longitude': ...}] the resolver
    builds: both numbers, or both [None]. *)
Definition coords : Type := option (R * R).

(** What [requests.get] gives for one postal code: a response with its
    status code and, when the JSON body has them and [float] accepts them,
    the latitude and longitude of the first place; or an exception
    (timeout, connection failure). *)
Inductive http_result :=
| Response (status_code : Z) (place : option (R * R))
| RequestException.

(** Calls of [st.error], [st.warning] and [st.success], by call site.  The
    other Streamlit calls change nothing the code reads back and are left
    out. *)
Inductive event :=
| error_missing_required_columns (missing_cols : list string)
| error_no_zip_column
| error_loading_file
| warning_invalid_zip_records (n : nat)
| success_all_zips_valid
| warning_coordinates_not_found (n : nat) (first_ten : list string) (more : bool)
| success_coordinates_added
| error_no_coordinates (search_zip : string)
| error_searching
| success_found (n : nat) (radius_miles : R) (search_zip : string)
| warning_no_atms_found (radius_miles : R) (search_zip : string)
| error_invalid_search_zip.

(** The state of a session: the three attributes of [ATMSearchTool], the
    postal codes requested from the lookup service so far and the messages
    shown so far, both oldest first. *)
Record state := State {
  df : option frame;
  invalid_zips_df : option frame;
  zip_coords_cache : gmap string coords;
  requests : list string;
  ui : list event
}.

(** [ATMSearchTool()] in a fresh session. *)
Definition init : state := State None None ∅ [] [].

Definition set_df (v : option frame) (s : state) : state :=
  State v (invalid_zips_df s) (zip_coords_cache s) (requests s) (ui s).

Definition set_invalid_zips_df (v : option frame) (s : state) : state :=
  State (df s) v (zip_coords_cache s) (requests s) (ui s).

Definition set_zip_coords_cache (v : gmap string coords) (s : state) : state :=
  State (df s) (invalid_zips_df s) v (requests s) (ui s).

Definition add_request (z : string) (s : state) : state :=
  State (df s) (invalid_zips_df s) (zip_coords_cache s) (requests s ++ [z]) (ui s).

Definition show (e : event) (s : state) : state :=
  State (df s) (invalid_zips_df s) (zip_coords_cache s) (requests s) (ui s ++ [e]).

End Frame.

(** * Coordinate resolver *)

Module Resolver.
Import Frame.

(** The part of the session the resolver does not touch. *)
Definition same_tables (s s' : state) : Prop :=
  df s' = df s /\ invalid_zips_df s' = invalid_zips_df s /\ ui s' = ui s.

(** The request log has no repetition and every code in it is in the
    cache. *)
Definition requests_cached (s : state) : Prop :=
  List.NoDup (requests s) /\
  forall z, In z (requests s) -> is_Some (zip_coords_cache s !! z).

Section WithService.

(** The lookup service: the result of the request for a postal code, given
    how many requests the session has issued before it. *)
Variable api : nat -> string -> http_result.

(** [get_zip_coordinates].  No caller changes a dictionary it gets back, so
    the dictionaries are values here.  A request counts as issued whether it
    returns or raises. *)
Definition get_zip_coordinates (zip_code : string) (s : state) : coords * state :=
  match zip_coords_cache s !! zip_code with
  | Some cached => (cached, s)
  | None =>
      let response := api (length (requests s)) zip_code in
      let s := add_request zip_code s in
      match response with
      | Response status_code place =>
          if (status_code =? 200)%Z then
            match place with
            | Some (lat, lon) =>
                let coords := Some (lat, lon) in
                (coords, set_zip_coords_cache (<[zip_code := coords]> (zip_coords_cache s)) s)
            | None =>
                (None, set_zip_coords_cache (<[zip_code := None]> (zip_coords_cache s)) s)
            end
          else
            (None, set_zip_coords_cache (<[zip_code := None]> (zip_coords_cache s)) s)
      | RequestException =>
          (None, set_zip_coords_cache (<[zip_code := None]> (zip_coords_cache s)) s)
      end
  end.

End WithService.

End Resolver.

(** * Dataset loader *)

Module Loader.
Import PyStr Zip Frame Resolver.
Local Open Scope string_scope.

Definition column_mapping : gmap string string :=
  list_to_map
    [ ("terminal", "terminal");
      ("customer code", "customer_code");
      ("ownership", "ownership");
      ("location", "location");
      ("address", "address");
      ("city", "city");
      ("st", "state");
      ("zip", "zip");
      ("zip long", "zip_long");
      ("zip short", "zip_short");
      ("dma code", "dma_code");
      ("dma description", "dma_description");
      ("make", "make");
      ("model", "model");
      ("parent chain business", "parent_chain_business");
      ("naics category", "naics_category");
      ("naics sector", "naics_sector");
      ("lob", "lob");
      ("cbm category", "cbm_category");
      ("cbm level", "cbm_level");
      ("avg transactions", "avg_transactions");
      ("avg cash dispensed", "avg_cash_dispensed");
      ("most recent month trx", "most_recent_month_trx");
      ("most recent month cd", "most_recent_month_cd");
      ("machine style code (3 digit code)", "machine_style_code");
      ("display surfaces code (lcr)", "display_surfaces_code");
      ("location type code (2 digits)", "location_type_code");
      ("permanent or tenmp (perm 1, temp 0)", "permanent_or_temp");
      ("inside or outside ( 1 inside, 0 outside)", "inside_or_outside") ].

(** [columns.str.strip().str.lower()]. *)
Definition normalize_columns (cols : list string) : list string :=
  map (fun c => lower (strip c)) cols.

(** [rename(columns=column_mapping)]: a name outside the mapping stays. *)
Definition rename (cols : list string) : list string :=
  map (fun c => match column_mapping !! c with Some c' => c' | None => c end) cols.

Definition required_cols : list string :=
  ["terminal"; "location"; "address"; "city"; "state"].

Definition missing_cols (cols : list string) : list string :=
  List.filter (fun col => negb (has_column col cols)) required_cols.

(** [Series.unique()]: the values in order of first appearance. *)
Fixpoint unique (l : list string) : list string :=
  match l with
  | [] => []
  | x :: l' => x :: List.filter (fun y => negb (String.eqb x y)) (unique l')
  end.

(** [process_zip_codes], on the table held in [df]; [None] is an
    exception.  The [zip_issue] column the method adds to its local
    [invalid_df] feeds a summary on screen only; [export_invalid_zips]
    computes it again. *)
Definition process_zip_codes (zip_source : string) (s : state) : option state :=
  match df s with
  | None => None
  | Some d =>
      let cols := columns d in
      let rs := rows d in
      (* working_zip: astype(str), then the stripping pass *)
      let rs := map (fun x => set_working_zip (Some (astype_str (working_zip x))) x) rs in
      let rs := map (fun x => set_working_zip (option_map strip_pass (working_zip x)) x) rs in
      (* cleaned_zip *)
      let rs := map (fun x => set_cleaned_zip (clean_zip (working_zip x)) x) rs in
      let cols := add_column "cleaned_zip" cols in
      let s := set_df (Some (Frame cols rs)) s in
      let valid_df := Frame cols (List.filter (fun x => valid_mask (cleaned_zip x)) rs) in
      let invalid_df := Frame cols (List.filter (fun x => negb (valid_mask (cleaned_zip x))) rs) in
      let s :=
        if (0 <? length (rows invalid_df))%nat
        then show (warning_invalid_zip_records (length (rows invalid_df)))
                  (set_invalid_zips_df (Some invalid_df) s)
        else show success_all_zips_valid s in
      let rs := map (fun x => set_zip (cleaned_zip x) x) (rows valid_df) in
      Some (set_df (Some (Frame (add_column "zip" cols) rs)) s)
  end.

(** A row with the diagnosis attached to it: what the [apply] of
    [process_zip_codes] and of [export_invalid_zips] does to one row. *)
Definition diagnosed (x : row) : row :=
  set_zip_issue (Some (diagnose_zip_issue (working_zip x) (cleaned_zip x))) x.

(** [export_invalid_zips]: the table written, [invalid_zips_df] with its
    [zip_issue] column, in the place of the bytes of the file. *)
Definition export_invalid_zips (s : state) : option frame :=
  match invalid_zips_df s with
  | Some d => Some (Frame (add_column "zip_issue" (columns d)) (map diagnosed (rows d)))
  | None => None
  end.

(** Derived notions for the statements about [process_zip_codes]: the row
    after the passes that fill [working_zip] and [cleaned_zip], and the rows
    of the exported table. *)
Definition processed (x : row) : row :=
  let w := Some (strip_pass (astype_str (working_zip x))) in
  set_cleaned_zip (clean_zip w) (set_working_zip w x).

(** A row has a canonical postal code: five digits. *)
Definition canonical (x : row) : Prop :=
  exists z, zip x = Some z /\ len z = 5%nat /\ isdigit z = true.

Definition exported_rows (s : state) : list row :=
  match export_invalid_zips s with
  | Some d => rows d
  | None => []
  end.

Section WithService.

Variable api : nat -> string -> http_result.

(** The loop of [add_coordinates] over [unique_zips]: the dictionary
    [zip_coords], the list [failed_zips] and the session. *)
Fixpoint resolve_unique (unique_zips : list string)
    (zip_coords : gmap string coords) (failed_zips : list string) (s : state)
  : gmap string coords * list string * state :=
  match unique_zips with
  | [] => (zip_coords, failed_zips, s)
  | zip_code :: rest =>
      let '(c, s) := get_zip_coordinates api zip_code s in
      let zip_coords := <[zip_code := c]> zip_coords in
      let failed_zips :=
        match c with None => (failed_zips ++ [zip_code])%list | Some _ => failed_zips end in
      resolve_unique rest zip_coords failed_zips s
  end.

(** The key a [zip] cell gives; after [process_zip_codes] no cell of the
    column is missing, every row being [canonical]. *)
Definition zip_key (x : row) : string := astype_str (zip x).

(** The warning of [add_coordinates]: [len(failed_zips)], [failed_zips[:10]]
    and whether ['...'] follows. *)
Definition coordinates_warning (failed_zips : list string) : event :=
  warning_coordinates_not_found (length failed_zips) (firstn 10 failed_zips)
    (10 <? length failed_zips)%nat.

(** [add_coordinates]. *)
Definition add_coordinates (s : state) : option state :=
  match df s with
  | None => None
  | Some d =>
      let unique_zips := unique (map zip_key (rows d)) in
      let '(zip_coords, failed_zips, s) := resolve_unique unique_zips ∅ [] s in
      let get (x : row) : coords :=
        match zip_coords !! zip_key x with Some c => c | None => None end in
      let rs := map (fun x => set_latitude (option_map fst (get x)) x) (rows d) in
      let rs := map (fun x => set_longitude (option_map snd (get x)) x) rs in
      let cols := add_column "longitude" (add_column "latitude" (columns d)) in
      let s := set_df (Some (Frame cols rs)) s in
      let s :=
        match failed_zips with
        | [] => s
        | _ :: _ => show (coordinates_warning failed_zips) s
        end in
      Some (show success_coordinates_added s)
  end.

(** [load_excel_file]; [uploaded_file] is the table [pd.read_excel] gives,
    [None] when it raises. *)
Definition load_excel_file (uploaded_file : option frame) (s : state) : bool * state :=
  match uploaded_file with
  | None => (false, show error_loading_file s)
  | Some d =>
      let cols := rename (normalize_columns (columns d)) in
      let s := set_df (Some (Frame cols (rows d))) s in
      match missing_cols cols with
      | (_ :: _) as missing => (false, show (error_missing_required_columns missing) s)
      | [] =>
          (* what follows the choice of the postal column *)
          let continue (zip_source : string) (source : row -> option string) :=
            let rs := map (fun x => set_working_zip (source x) x) (rows d) in
            let s := set_df (Some (Frame (add_column "working_zip" cols) rs)) s in
            match process_zip_codes zip_source s with
            | None => (false, show error_loading_file s)
            | Some s =>
                let have := match df s with Some d' => columns d' | None => [] end in
                if negb (has_column "latitude" have) || negb (has_column "longitude" have)
                then match add_coordinates s with
                     | None => (false, show error_loading_file s)
                     | Some s => (true, s)
                     end
                else (true, s)
            end in
          if has_column "zip_short" cols then continue "zip_short" zip_short
          else if has_column "zip" cols then continue "zip" zip
          else (false, show error_no_zip_column s)
      end
  end.

End WithService.

(** [load_excel_file] fails showing the error [e]. *)
Definition fails_with (e : event) (out : bool * state) : Prop :=
  out.1 = false /\ exists shown, ui out.2 = (shown ++ [e])%list.

End Loader.

(** * Radius search *)

Module Search.
Import Haversine PyStr Frame Resolver.

(** [numpy.rint]: the nearest integer, halves to the even one. *)
Definition rint (y : R) : Z :=
  let n := Int_part y in
  let f := frac_part y in
  if Rlt_dec f (1 / 2) then n
  else if Rlt_dec (1 / 2) f then (n + 1)%Z
  else if Z.even n then n else (n + 1)%Z.

(** [round(2)] on one number. *)
Definition round2 (x : R) : R := IZR (rint (x * 100)) / 100.

Definition round_distance (d : distance) : distance :=
  match d with
  | Miles x => Miles (round2 x)
  | Inf => Inf
  end.

(** [d <= radius_miles]. *)
Definition le_radius (d : distance) (radius_miles : R) : bool :=
  match d with
  | Miles x => if Rle_dec x radius_miles then true else false
  | Inf => false
  end.

(** [d != float('inf')]. *)
Definition not_inf (d : distance) : bool :=
  match d with
  | Miles _ => true
  | Inf => false
  end.

(** The body of the loop over the rows: the distance appended for one row,
    [None] when the body raises ([KeyError] for a column the table lacks,
    [ValueError] from [haversine_distance]). *)
Definition row_distance (cols : list string) (search_lat search_lon : R) (x : row)
  : option distance :=
  if negb (has_column "latitude" cols) then None
  else match latitude x with
       | None => Some Inf
       | Some lat =>
           if negb (has_column "longitude" cols) then None
           else match longitude x with
                | None => Some Inf
                | Some lon =>
                    option_map Miles (haversine_distance search_lat search_lon lat lon)
                end
       end.

(** The list [distances] after the loop. *)
Fixpoint distances (cols : list string) (search_lat search_lon : R) (rs : list row)
  : option (list distance) :=
  match rs with
  | [] => Some []
  | x :: rs' =>
      match row_distance cols search_lat search_lon x with
      | None => None
      | Some d =>
          match distances cols search_lat search_lon rs' with
          | None => None
          | Some ds => Some (d :: ds)
          end
      end
  end.

(** [df['distance_miles'] = distances], row by row. *)
Fixpoint assign_distances (rs : list row) (ds : list distance) : list row :=
  match rs, ds with
  | x :: rs', d :: ds' => set_distance_miles d x :: assign_distances rs' ds'
  | _, _ => []
  end.

Section WithEnvironment.

Variable api : nat -> string -> http_result.

(** [sort_values('distance_miles')] on the rows of a table.  The call
    leaves [kind] at its default, ['quicksort'], which orders the rows by
    the column and promises nothing about rows with equal values; the
    function is a parameter, constrained by [sorts_by_distance] below. *)
Variable sort_values : list row -> list row.

(** [search_atms_by_radius]. *)
Definition search_atms_by_radius (search_zip : string) (radius_miles : R) (s : state)
  : frame * state :=
  let '(search_coords, s) := get_zip_coordinates api search_zip s in
  match search_coords with
  | None => (empty_frame, show (error_no_coordinates search_zip) s)
  | Some (search_lat, search_lon) =>
      match df s with
      | None => (empty_frame, show error_searching s)
      | Some d =>
          match distances (columns d) search_lat search_lon (rows d) with
          | None => (empty_frame, show error_searching s)
          | Some ds =>
              let d := Frame (add_column "distance_miles" (columns d))
                             (assign_distances (rows d) ds) in
              let s := set_df (Some d) s in
              let filtered_df :=
                List.filter (fun x => le_radius (distance_miles x) radius_miles
                                 && not_inf (distance_miles x)) (rows d) in
              let filtered_df := sort_values filtered_df in
              let filtered_df :=
                map (fun x => set_distance_miles (round_distance (distance_miles x)) x)
                    filtered_df in
              (Frame (columns d) filtered_df, s)
          end
      end
  end.

(** The branch of [main] that performs a search, once the data is loaded:
    [search_button] is the state of the button and [search_zip] the text
    typed.  The display of the results, their download and their copy kept
    for the map are left out. *)
Definition main_search (search_button : bool) (search_zip : string) (radius_miles : R)
    (s : state) : state :=
  if search_button && negb (is_empty search_zip) then
    if (len search_zip =? 5)%nat && isdigit search_zip then
      let '(results, s) := search_atms_by_radius search_zip radius_miles s in
      if negb (empty results)
      then show (success_found (length (rows results)) radius_miles search_zip) s
      else show (warning_no_atms_found radius_miles search_zip) s
    else show error_invalid_search_zip s
  else s.

End WithEnvironment.

(** The order of the [distance_miles] column. *)
Definition distance_le (a b : distance) : Prop :=
  match a, b with
  | Miles x, Miles y => x <= y
  | _, Inf => True
  | Inf, Miles _ => False
  end.

Definition by_column (a b : row) : Prop :=
  distance_le (distance_miles a) (distance_miles b).

(** What [sort_values('distance_miles')] promises of its result: the same
    rows, in ascending order of the column. *)
Definition sorts_by_distance (sort : list row -> list row) : Prop :=
  forall l, Permutation l (sort l) /\ Sorted by_column (sort l).

Definition distance_leb (a b : distance) : bool :=
  match a, b with
  | Miles x, Miles y => if Rle_dec x y then true else false
  | _, Inf => true
  | Inf, Miles _ => false
  end.

(** A sort that keeps that promise, for the examples: [stable_sort]
    inserts a row before the first later row that is not smaller.  It is not
    the sort of pandas, whose order of rows with equal values is decided by
    the sorting routine of numpy and is not modelled. *)
Fixpoint stable_insert (x : row) (l : list row) : list row :=
  match l with
  | [] => [x]
  | y :: l' =>
      if distance_leb (distance_miles x) (distance_miles y) then x :: y :: l'
      else y :: stable_insert x l'
  end.

Fixpoint stable_sort (l : list row) : list row :=
  match l with
  | [] => []
  | x :: l' => stable_insert x (stable_sort l')
  end.

(** The search result as the specification words it, for a target at
    [(lat0, lon0)]: the rows with both coordinates present whose
    great-circle distance to the target is at most the radius, ascending by
    that distance, rows at equal distance in ingestion order, each with its
    distance rounded to two decimals. *)
Definition row_miles (lat0 lon0 : R) (x : row) : distance :=
  match latitude x, longitude x with
  | Some lat, Some lon => Miles (great_circle 3956 lat0 lon0 lat lon)
  | _, _ => Inf
  end.

Definition within (lat0 lon0 radius_miles : R) (x : row) : bool :=
  match latitude x, longitude x with
  | Some lat, Some lon =>
      if Rle_dec (great_circle 3956 lat0 lon0 lat lon) radius_miles then true else false
  | _, _ => false
  end.

(** The row with its distance to the target in [distance_miles], and the
    row with [distance_miles] rounded. *)
Definition measured (lat0 lon0 : R) (x : row) : row :=
  set_distance_miles (row_miles lat0 lon0 x) x.

Definition rounded (x : row) : row :=
  set_distance_miles (round_distance (distance_miles x)) x.

Definition search_result_spec (lat0 lon0 radius_miles : R) (rs : list row) : list row :=
  map rounded
      (stable_sort
         (map (measured lat0 lon0) (List.filter (within lat0 lon0 radius_miles) rs))).

End Search.

(** * Sessions *)

Module Session.
Import Frame Resolver Loader Search.

(** What can happen in a session once the tool exists: the methods that
    touch its state, and the search branch of [main]. *)
Inductive action :=
| LoadFile (uploaded_file : option frame)
| Resolve (zip_code : string)
| RunSearch (search_zip : string) (radius_miles : R)
| MainSearch (search_button : bool) (search_zip : string) (radius_miles : R).

Section WithEnvironment.

Variable api : nat -> string -> http_result.
Variable sort_values : list row -> list row.

Definition step (s : state) (a : action) : state :=
  match a with
  | LoadFile uploaded_file => (load_excel_file api uploaded_file s).2
  | Resolve zip_code => (get_zip_coordinates api zip_code s).2
  | RunSearch search_zip radius_miles =>
      (search_atms_by_radius api sort_values search_zip radius_miles s).2
  | MainSearch search_button search_zip radius_miles =>
      main_search api sort_values search_button search_zip radius_miles s
  end.

Definition run (actions : list action) (s : state) : state :=
  fold_left step actions s.

End WithEnvironment.

End Session.

(** * Sample data *)

Module Samples.
Import Frame.
Local Open Scope string_scope.

(** A row with the given label whose postal cell reads [raw]. *)
Definition postal_row (i : nat) (raw : string) : row :=
  Row i None (Some raw) None None None None None Inf.

(** The same row once [load_excel_file] has copied the cell into
    [working_zip]. *)
Definition working_row (i : nat) (raw : string) : row :=
  Row i None (Some raw) (Some raw) None None None None Inf.

(** A row with the given label and coordinates. *)
Definition located_row (i : nat) (lat lon : R) : row :=
  Row i None (Some "10001") (Some "10001") (Some "10001") None (Some lat) (Some lon) Inf.

(** A row whose coordinates could not be resolved. *)
Definition unlocated_row (i : nat) : row :=
  Row i None (Some "00000") (Some "00000") (Some "00000") None None None Inf.

Definition headers : list string :=
  ["Terminal"; "Location"; "Address"; "City"; "St"; "Zip"].

Definition loaded_columns : list string :=
  ["terminal"; "location"; "address"; "city"; "state"; "zip"; "working_zip";
   "cleaned_zip"; "latitude"; "longitude"].

(** A fresh session as [process_zip_codes] finds it. *)
Definition pending_frame (rs : list row) : frame :=
  Frame ["terminal"; "location"; "address"; "city"; "state"; "zip"; "working_zip"] rs.

Definition pending (rs : list row) : state :=
  State (Some (pending_frame rs)) None ∅ [] [].

(** A session holding a loaded table. *)
Definition loaded_frame (rs : list row) : frame := Frame loaded_columns rs.

Definition loaded (rs : list row) : state :=
  State (Some (loaded_frame rs)) None ∅ [] [].

(** A lookup service that places every code at the same point, and one
    that knows no code. *)
Definition api_at (lat lon : R) : nat -> string -> http_result :=
  fun _ _ => Response 200 (Some (lat, lon)).

Definition api_not_found : nat -> string -> http_result :=
  fun _ _ => Response 404 None.

End Samples.

(** * Derived notions *)

Module Notions.
Import PyStr Zip Frame Resolver Loader Search.
Local Open Scope nat_scope.
Local Open Scope string_scope.

(** The row passes [valid_mask] once [process_zip_codes] has cleaned it. *)
Definition accepted (x : row) : bool := valid_mask (cleaned_zip (processed x)).

(** The row [process_zip_codes] keeps in [df] for an accepted row. *)
Definition kept_row (x : row) : row :=
  set_zip (cleaned_zip (processed x)) (processed x).

(** The diagnosis by the number [n] of digits of a raw value, [h] telling
    whether the value contains a hyphen. *)
Definition issue_by_digits (n : nat) (h : bool) : string :=
  if (n =? 0)%nat then (if h then "No digits in zip code" else "Missing/Empty zip code")
  else if (n <? 5)%nat then "Too few digits (" ++ str_of_nat n ++ " digits)"
  else if (9 <? n)%nat then "Too many digits (" ++ str_of_nat n ++ " digits)"
  else if (6 <=? n)%nat && (n <=? 8)%nat
       then "Unusual zip length (" ++ str_of_nat n ++ " digits)"
  else "Other zip format issue".

(** The code has no entry in the cache. *)
Definition uncached (s : state) (z : string) : bool :=
  match zip_coords_cache s !! z with
  | Some _ => false
  | None => true
  end.

(** The code is in the cache with no coordinates. *)
Definition cached_absent (s : state) (z : string) : bool :=
  match zip_coords_cache s !! z with
  | Some None => true
  | _ => false
  end.

(** What a search leaves of a row apart from its distance. *)
Definition record_of (x : row)
  : nat * option string * option string * option string * option string * option string
    * option R * option R :=
  (index x, zip_short x, zip x, working_zip x, cleaned_zip x, zip_issue x,
   latitude x, longitude x).

(** The row passes the filter of [search_atms_by_radius]. *)
Definition in_radius (radius_miles : R) (x : row) : bool :=
  le_radius (distance_miles x) radius_miles && not_inf (distance_miles x).

(** [search_atms_by_radius] from the point where the coordinates of the
    target are known. *)
Definition search_with (sort_values : list row -> list row) (search_zip : string)
    (search_coords : coords) (radius_miles : R) (s : state) : frame * state :=
  match search_coords with
  | None => (empty_frame, show (error_no_coordinates search_zip) s)
  | Some (search_lat, search_lon) =>
      match df s with
      | None => (empty_frame, show error_searching s)
      | Some d =>
          match distances (columns d) search_lat search_lon (rows d) with
          | None => (empty_frame, show error_searching s)
          | Some ds =>
              let cols := add_column "distance_miles" (columns d) in
              let rs := assign_distances (rows d) ds in
              (Frame cols (map rounded (sort_values (List.filter (in_radius radius_miles) rs))),
               set_df (Some (Frame cols rs)) s)
          end
      end
  end.

(** The cell [load_excel_file] copies into [working_zip], by the columns
    of the table after the renaming. *)
Definition postal_source (cols : list string) (x : row) : option string :=
  if has_column "zip_short" cols then zip_short x else zip x.

(** The row as [process_zip_codes] finds it during a load. *)
Definition staged (cols : list string) (x : row) : row :=
  set_working_zip (postal_source cols x) x.

End Notions.

(** * The page *)

Module App.
Import PyStr Frame Resolver Loader Search.

(** What [main] itself shows after a load, and the coverage it computes. *)
Inductive notice :=
| loaded_records (n : nat)
| invalid_records (n : nat)
| coordinate_coverage (percentage : R).

(** [st.session_state]: the tool, the flag [data_loaded] (false while the
    attribute is absent), the results kept for the map, and the notices
    shown so far, oldest first. *)
Record app := App {
  search_tool : state;
  data_loaded : bool;
  search_results : option frame;
  notices : list notice
}.

(** The session state when the page is first opened. *)
Definition start : app := App init false None [].

(** The widgets of one run of the script: the file uploaded ([None] for no
    file, [Some None] for a file [pd.read_excel] cannot read), the two
    buttons, the code typed and the radius selected. *)
Record inputs := Inputs {
  uploaded_file : option (option frame);
  load_button : bool;
  search_button : bool;
  search_zip : string;
  radius_miles : R
}.

(** How a run of the script ends: at its last line, or at an exception
    nothing catches.  The session state is kept in both cases. *)
Inductive outcome :=
| Completed (a : app)
| Raised (a : app).

Definition note (n : notice) (a : app) : app :=
  App (search_tool a) (data_loaded a) (search_results a) (notices a ++ [n]).

Definition has_coordinates (x : row) : bool :=
  match latitude x, longitude x with
  | Some _, Some _ => true
  | _, _ => false
  end.

(** [dropna(subset=['latitude', 'longitude'])] on the rows. *)
Definition dropna (rs : list row) : list row := List.filter has_coordinates rs.

(** [coord_percentage]; [None] is an exception: [KeyError] from [dropna]
    for a missing column, [ZeroDivisionError] for a table without rows. *)
Definition coord_percentage (d : frame) : option R :=
  if negb (has_column "latitude" (columns d)) || negb (has_column "longitude" (columns d))
  then None
  else match length (rows d) with
       | O => None
       | S _ => Some (INR (length (dropna (rows d))) / INR (length (rows d)) * 100)
       end.

(** What the map shows. *)
Inductive map_view :=
| no_map
| map_of (points : list row)
| map_not_available.

(** The map section of [main]. *)
Definition map_section (a : app) : map_view :=
  match search_results a with
  | None => no_map
  | Some results =>
      if empty results then no_map
      else match dropna (rows results) with
           | [] => map_not_available
           | (_ :: _) as map_data => map_of map_data
           end
  end.

Section WithEnvironment.

Variable api : nat -> string -> http_result.
Variable sort_values : list row -> list row.

(** The sidebar: the load of an uploaded file when the button is
    pressed.  After a successful load [df] is a table, whose length the
    first notice shows. *)
Definition sidebar_load (i : inputs) (a : app) : app :=
  match uploaded_file i with
  | None => a
  | Some file =>
      if load_button i then
        let '(ok, tool) := load_excel_file api file (search_tool a) in
        if ok then
          let n := match df tool with Some d => length (rows d) | None => O end in
          let a := App tool true (search_results a) (notices a ++ [loaded_records n]) in
          match invalid_zips_df tool with
          | Some invalid => note (invalid_records (length (rows invalid))) a
          | None => a
          end
        else App tool false (search_results a) (notices a)
      else a
  end.

(** The search branch of [main], with the copy of the results it keeps. *)
Definition search_branch (i : inputs) (a : app) : app :=
  if search_button i && negb (is_empty (search_zip i)) then
    if (len (search_zip i) =? 5)%nat && isdigit (search_zip i) then
      let '(results, tool) :=
        search_atms_by_radius api sort_values (search_zip i) (radius_miles i)
          (search_tool a) in
      if negb (empty results)
      then App (show (success_found (length (rows results)) (radius_miles i) (search_zip i))
                     tool)
               (data_loaded a) (Some results) (notices a)
      else App (show (warning_no_atms_found (radius_miles i) (search_zip i)) tool)
               (data_loaded a) (search_results a) (notices a)
    else App (show error_invalid_search_zip (search_tool a))
             (data_loaded a) (search_results a) (notices a)
  else a.

(** One run of [main] on a session that has its tool.  The metrics of the
    summary read the columns [zip] and [state]; what is only displayed is
    left out. *)
Definition main (i : inputs) (a : app) : outcome :=
  let a := sidebar_load i a in
  if data_loaded a then
    match df (search_tool a) with
    | None => Raised a
    | Some d =>
        match coord_percentage d with
        | None => Raised a
        | Some percentage =>
            let a := note (coordinate_coverage percentage) a in
            if negb (has_column "zip" (columns d)) || negb (has_column "state" (columns d))
            then Raised a
            else Completed (search_branch i a)
        end
    end
  else Completed a.

(** The session state a run leaves. *)
Definition after (o : outcome) : app :=
  match o with
  | Completed a => a
  | Raised a => a
  end.

(** The session state after a sequence of runs. *)
Definition runs (visits : list inputs) (a : app) : app :=
  fold_left (fun a i => after (main i a)) visits a.

End WithEnvironment.

(** The columns [main] reads from the table of a loaded session. *)
Definition summary_columns : list string := ["latitude"; "longitude"; "zip"; "state"].

(** A session marked as loaded holds a table with these columns. *)
Definition ready (a : app) : Prop :=
  data_loaded a = true ->
  exists d, df (search_tool a) = Some d /\
            forall c, In c summary_columns -> has_column c (columns d) = true.

(** The results kept for the map have a row, and coordinates in every
    row. *)
Definition mappable (a : app) : Prop :=
  forall results, search_results a = Some results ->
    empty results = false /\ forallb has_coordinates (rows results) = true.

(** Every code requested is in the cache and every code in the cache was
    requested, once. *)
Definition requested_once (s : state) : Prop :=
  List.NoDup (requests s) /\
  forall z, In z (requests s) <-> is_Some (zip_coords_cache s !! z).

End App.

(** * Properties *)

Module HaversineFacts.
Import Haversine.

Lemma sin_half_sq (x : R) : (sin (x / 2)) ^ 2 = (1 - cos x) / 2.
Proof.
  replace x with (2 * (x / 2)) at 2 by lra.
  rewrite cos_2a_sin. lra.
Qed.

Lemma hav_a_central a b c d : hav_a a b c d = hav_central a b c d.
Proof. unfold hav_a, hav_central, hav. cbv zeta. rewrite !sin_half_sq. reflexivity. Qed.

Lemma cos_cos_bounds (x y : R) :
  - (sin ((y - x) / 2)) ^ 2 <= cos x * cos y <= 1 - (sin ((y - x) / 2)) ^ 2.
Proof.
  rewrite sin_half_sq.
  pose proof (cos_minus y x) as Hm.
  pose proof (cos_plus y x) as Hp.
  pose proof (COS_bound (y + x)) as [Hl Hu].
  split; lra.
Qed.

Lemma hav_a_bounds a b c d : 0 <= hav_a a b c d <= 1.
Proof.
  unfold hav_a. cbv zeta.
  pose proof (cos_cos_bounds a c) as [Hl Hu].
  set (u := (sin ((c - a) / 2)) ^ 2) in *.
  set (s := (sin ((d - b) / 2)) ^ 2).
  set (p := cos a * cos c) in *.
  assert (Hu0 : 0 <= u) by (unfold u; nra).
  assert (Hs0 : 0 <= s) by (unfold s; nra).
  assert (Hs1 : s <= 1).
  { unfold s. pose proof (SIN_bound ((d - b) / 2)) as [? ?]. nra. }
  assert (Hu1 : u <= 1).
  { unfold u. pose proof (SIN_bound ((c - a) / 2)) as [? ?]. nra. }
  replace (cos a * cos c * s) with (p * s) by reflexivity.
  split; nra.
Qed.

Lemma math_sqrt_some x : 0 <= x -> math_sqrt x = Some (sqrt x).
Proof. intros H. unfold math_sqrt. destruct (Rlt_dec x 0); [lra | reflexivity]. Qed.

Lemma math_asin_some x : -1 <= x <= 1 -> math_asin x = Some (asin x).
Proof.
  intros [Hl Hu]. unfold math_asin.
  destruct (Rlt_dec x (-1)); [lra |].
  destruct (Rlt_dec 1 x); [lra | reflexivity].
Qed.

Lemma sqrt_unit x : 0 <= x <= 1 -> 0 <= sqrt x <= 1.
Proof.
  intros [Hl Hu]. split; [apply sqrt_pos |].
  rewrite <- sqrt_1. apply sqrt_le_1_alt. exact Hu.
Qed.

Lemma asin_nonneg x : 0 <= x <= 1 -> 0 <= asin x.
Proof.
  intros [Hl Hu].
  destruct (Rle_dec 0 (asin x)) as [H | H]; [exact H | exfalso].
  pose proof (asin_bound x) as [Hb _].
  pose proof PI_RGT_0 as Hpi.
  assert (Hs : sin (asin x) < 0) by (apply sin_lt_0_var; lra).
  rewrite sin_asin in Hs by lra. lra.
Qed.

Lemma haversine_distance_eq lat1 lon1 lat2 lon2 :
  haversine_distance lat1 lon1 lat2 lon2 =
  Some (2 * asin (sqrt (hav_a (radians lat1) (radians lon1) (radians lat2) (radians lon2))) * r).
Proof.
  unfold haversine_distance. cbv zeta.
  pose proof (hav_a_bounds (radians lat1) (radians lon1) (radians lat2) (radians lon2)) as Hb.
  rewrite (math_sqrt_some _ (proj1 Hb)).
  pose proof (sqrt_unit _ Hb) as [Hs0 Hs1].
  rewrite math_asin_some by lra. reflexivity.
Qed.

Lemma radians_spec x : radians x = x * PI / 180.
Proof. unfold radians. lra. Qed.

Lemma haversine_is_great_circle lat1 lon1 lat2 lon2 :
  haversine_distance lat1 lon1 lat2 lon2 = Some (great_circle 3956 lat1 lon1 lat2 lon2).
Proof.
  rewrite haversine_distance_eq, hav_a_central. unfold great_circle, r.
  rewrite !radians_spec. f_equal. ring.
Qed.

Lemma great_circle_refl rad lat lon : great_circle rad lat lon lat lon = 0.
Proof.
  unfold great_circle, hav_central, hav.
  rewrite !Rminus_diag, cos_0.
  replace ((1 - 1) / 2 + _) with 0 by lra.
  rewrite sqrt_0, asin_0. ring.
Qed.

Lemma hav_sym x y : hav (x - y) = hav (y - x).
Proof. unfold hav. replace (x - y) with (- (y - x)) by lra. now rewrite cos_neg. Qed.

Lemma great_circle_sym rad lat1 lon1 lat2 lon2 :
  great_circle rad lat1 lon1 lat2 lon2 = great_circle rad lat2 lon2 lat1 lon1.
Proof.
  unfold great_circle, hav_central.
  rewrite (hav_sym (lat2 * PI / 180)), (hav_sym (lon2 * PI / 180)).
  rewrite (Rmult_comm (cos (lat1 * PI / 180))). reflexivity.
Qed.

Lemma hav_central_bounds a b c d : 0 <= hav_central a b c d <= 1.
Proof. rewrite <- hav_a_central. apply hav_a_bounds. Qed.

Lemma great_circle_bounds rad lat1 lon1 lat2 lon2 :
  0 <= rad -> 0 <= great_circle rad lat1 lon1 lat2 lon2 <= PI * rad.
Proof.
  intros Hr. unfold great_circle.
  pose proof (hav_central_bounds (lat1 * PI / 180) (lon1 * PI / 180)
                (lat2 * PI / 180) (lon2 * PI / 180)) as Hb.
  pose proof (sqrt_unit _ Hb) as Hs.
  pose proof (asin_nonneg _ Hs) as H0.
  pose proof (asin_bound (sqrt (hav_central (lat1 * PI / 180) (lon1 * PI / 180)
                (lat2 * PI / 180) (lon2 * PI / 180)))) as [_ H1].
  split; nra.
Qed.

(** Over the reals the intermediate value [a] lies between 0 and 1
    whatever the latitudes and longitudes, so [math.sqrt] and [math.asin]
    are applied within their domains and the result lies between 0 and
    [PI * 3956].  In the program a value of [a] below 0 or above 1 can
    therefore come from rounding only, which this development does not
    model. *)
Lemma haversine_distance_total (lat1 lon1 lat2 lon2 : R) :
  let a := hav_a (radians lat1) (radians lon1) (radians lat2) (radians lon2) in
  0 <= a <= 1 /\
  math_sqrt a = Some (sqrt a) /\
  math_asin (sqrt a) = Some (asin (sqrt a)) /\
  exists d, haversine_distance lat1 lon1 lat2 lon2 = Some d /\ 0 <= d <= PI * 3956.
Proof.
  intros a. pose proof (hav_a_bounds (radians lat1) (radians lon1)
                          (radians lat2) (radians lon2)) as Ha. fold a in Ha.
  pose proof (sqrt_unit _ Ha) as Hs.
  repeat split; try tauto.
  - apply math_sqrt_some. tauto.
  - apply math_asin_some. lra.
  - exists (great_circle 3956 lat1 lon1 lat2 lon2).
    split; [apply haversine_is_great_circle | apply great_circle_bounds; lra].
Qed.

End HaversineFacts.

Module PyStrFacts.
Import PyStr.
Local Open Scope nat_scope.

Import Zip.

Ltac by_cases c :=
  destruct c as [[] [] [] [] [] [] [] []]; vm_compute; intuition congruence.

Lemma isdigit_not_sign c :
  isdigit_char c = true -> Ascii.eqb c "+"%char || Ascii.eqb c "-"%char = false.
Proof. by_cases c. Qed.

Lemma isdigit_zero : isdigit_char "0"%char = true.
Proof. reflexivity. Qed.

Lemma re_digit_isdigit c : re_digit c = true -> isdigit_char c = true.
Proof. by_cases c. Qed.

Lemma kept_isdigit c : kept c = true -> isdigit_char c = re_digit c.
Proof. by_cases c. Qed.

Lemma kept_not_space c : kept c = true -> isspace_char c = false.
Proof. by_cases c. Qed.

Lemma kept_lower c : kept c = true -> lower_char c = c.
Proof. by_cases c. Qed.

Lemma re_digit_not_hyphen c : re_digit c = true -> Ascii.eqb c hyphen = false.
Proof. by_cases c. Qed.

Lemma re_digit_not_sign c :
  re_digit c = true -> Ascii.eqb c "+"%char || Ascii.eqb c "-"%char = false.
Proof. by_cases c. Qed.

Lemma kept_not_n c : kept c = true -> Ascii.eqb c "n"%char = false.
Proof. by_cases c. Qed.

Lemma eqb_hyphen_sym c : Ascii.eqb hyphen c = Ascii.eqb c hyphen.
Proof. apply Ascii.eqb_sym. Qed.

Lemma forallb_str_impl (p q : ascii -> bool) s :
  (forall c, p c = true -> q c = true) -> forallb_str p s = true -> forallb_str q s = true.
Proof.
  intros Hpq. induction s as [| c s IH]; simpl; [reflexivity |].
  intros H. apply andb_true_iff in H as [Hc Hs].
  rewrite (Hpq _ Hc), (IH Hs). reflexivity.
Qed.

Lemma digits_kept s : forallb_str re_digit s = true -> forallb_str kept s = true.
Proof.
  apply forallb_str_impl. intros c H. unfold kept. rewrite H. reflexivity.
Qed.

Lemma lower_kept s : forallb_str kept s = true -> lower s = s.
Proof.
  induction s as [| c s IH]; simpl; [reflexivity |].
  intros H. apply andb_true_iff in H as [Hc Hs].
  rewrite (kept_lower _ Hc), (IH Hs). reflexivity.
Qed.

Lemma lstrip_kept s : forallb_str kept s = true -> lstrip s = s.
Proof.
  destruct s as [| c s]; simpl; [reflexivity |].
  intros H. apply andb_true_iff in H as [Hc _].
  rewrite (kept_not_space _ Hc). reflexivity.
Qed.

Lemma rstrip_kept s : forallb_str kept s = true -> rstrip s = s.
Proof.
  induction s as [| c s IH]; simpl; [reflexivity |].
  intros H. apply andb_true_iff in H as [Hc Hs].
  rewrite (kept_not_space _ Hc), (IH Hs). reflexivity.
Qed.

Lemma strip_kept s : forallb_str kept s = true -> strip s = s.
Proof.
  intros H. unfold strip. rewrite (lstrip_kept _ H). apply rstrip_kept, H.
Qed.

(** Among the strings the stripping pass can leave, only the empty one
    reads as missing. *)
Lemma missing_kept s :
  forallb_str kept s = true ->
  str_in s ["nan"; "none"; EmptyString]%string = is_empty s.
Proof.
  destruct s as [| c s]; [reflexivity |]. simpl.
  intros H. apply andb_true_iff in H as [Hc _].
  apply kept_not_n in Hc.
  unfold str_in. simpl. rewrite Hc. reflexivity.
Qed.

Lemma contains_digits s : forallb_str re_digit s = true -> contains hyphen s = false.
Proof.
  induction s as [| c s IH]; simpl; [reflexivity |].
  intros H. apply andb_true_iff in H as [Hc Hs].
  unfold contains in *. cbn [existsb_str].
  rewrite eqb_hyphen_sym, (re_digit_not_hyphen _ Hc). exact (IH Hs).
Qed.

Lemma isdigit_digits s :
  forallb_str re_digit s = true -> isdigit s = negb (is_empty s).
Proof.
  intros H. unfold isdigit.
  rewrite (forallb_str_impl _ _ _ re_digit_isdigit H). apply andb_true_r.
Qed.

Lemma append_cons c s t : String.append (String c s) t = String c (String.append s t).
Proof. reflexivity. Qed.

Lemma len_append s t : len (String.append s t) = len s + len t.
Proof.
  unfold len. induction s as [| c s IH]; [reflexivity |].
  rewrite append_cons. simpl. now rewrite IH.
Qed.

Lemma len_zeros n : len (zeros n) = n.
Proof. unfold len. induction n as [| n IH]; simpl; [reflexivity | now rewrite IH]. Qed.

Lemma append_empty_r s : String.append s EmptyString = s.
Proof. induction s as [| c s IH]; [reflexivity | now rewrite append_cons, IH]. Qed.

Lemma zfill_digits width s :
  forallb_str isdigit_char s = true -> zfill width s = String.append (zeros (width - len s)) s.
Proof.
  intros H. unfold zfill. cbv zeta.
  destruct (Nat.leb_spec width (len s)) as [Hle | Hlt].
  - replace (width - len s) with 0 by lia. reflexivity.
  - destruct s as [| c s]; simpl in *.
    + unfold len. simpl. rewrite Nat.sub_0_r. symmetry. apply append_empty_r.
    + apply andb_true_iff in H as [Hc _].
      rewrite (isdigit_not_sign _ Hc). reflexivity.
Qed.

Lemma filter_str_forallb p s : forallb_str p (filter_str p s) = true.
Proof.
  induction s as [| c s IH]; simpl; [reflexivity |].
  destruct (p c) eqn:Hc; simpl; [rewrite Hc |]; exact IH.
Qed.

Lemma filter_str_id p s : forallb_str p s = true -> filter_str p s = s.
Proof.
  induction s as [| c s IH]; simpl; [reflexivity |].
  intros H. apply andb_true_iff in H as [Hc Hs]. rewrite Hc, (IH Hs). reflexivity.
Qed.

Lemma split_head_append_hyphen a b :
  forallb_str re_digit a = true ->
  split_head hyphen (String.append a (String hyphen b)) = a.
Proof.
  induction a as [| c a IH]; [reflexivity |].
  rewrite append_cons. simpl.
  intros H. apply andb_true_iff in H as [Hc Ha].
  rewrite (re_digit_not_hyphen _ Hc), (IH Ha). reflexivity.
Qed.

Lemma contains_append_hyphen a b : contains hyphen (String.append a (String hyphen b)) = true.
Proof.
  unfold contains. induction a as [| c a IH]; [reflexivity |].
  rewrite append_cons. cbn [existsb_str]. rewrite IH. apply orb_true_r.
Qed.

Lemma forallb_str_append p a b :
  forallb_str p (String.append a b) = forallb_str p a && forallb_str p b.
Proof.
  induction a as [| c a IH]; [reflexivity |].
  rewrite append_cons. simpl. rewrite IH. apply andb_assoc.
Qed.

Lemma forallb_zeros n : forallb_str isdigit_char (zeros n) = true.
Proof. induction n as [| n IH]; simpl; [reflexivity | exact IH]. Qed.

Lemma len_take n s : n <= len s -> len (take n s) = n.
Proof.
  unfold len. revert s. induction n as [| n IH]; intros [| c s]; simpl; try lia.
  intros H. rewrite IH by lia. reflexivity.
Qed.

Lemma forallb_take p n s : forallb_str p s = true -> forallb_str p (take n s) = true.
Proof.
  revert s. induction n as [| n IH]; intros [| c s]; simpl; try reflexivity.
  intros H. apply andb_true_iff in H as [Hc Hs]. rewrite Hc, (IH _ Hs). reflexivity.
Qed.

Lemma is_empty_len s : is_empty s = (len s =? 0).
Proof. destruct s; reflexivity. Qed.

(** What precedes the first hyphen of a kept string is made of digits. *)
Lemma split_head_digits w :
  forallb_str kept w = true -> forallb_str re_digit (split_head hyphen w) = true.
Proof.
  induction w as [| c w IH]; simpl; [reflexivity |].
  intros H. apply andb_true_iff in H as [Hc Hw].
  destruct (Ascii.eqb c hyphen) eqn:Hh; simpl; [reflexivity |].
  unfold kept in Hc. rewrite Hh, orb_false_r in Hc. rewrite Hc. exact (IH Hw).
Qed.

Lemma split_head_no_hyphen w : contains hyphen w = false -> split_head hyphen w = w.
Proof.
  unfold contains. induction w as [| c w IH]; [reflexivity |].
  cbn [existsb_str split_head]. intros H. apply orb_false_iff in H as [Hc Hw].
  rewrite eqb_hyphen_sym in Hc. rewrite Hc, (IH Hw). reflexivity.
Qed.

End PyStrFacts.

Module ZipFacts.
Import PyStr Zip PyStrFacts.
Local Open Scope nat_scope.
Local Open Scope string_scope.

Lemma strip_pass_kept s : forallb_str kept (strip_pass s) = true.
Proof. apply filter_str_forallb. Qed.

Lemma strip_pass_id w : forallb_str kept w = true -> strip_pass w = w.
Proof. apply filter_str_id. Qed.

(** [clean_zip] on a value the stripping pass can leave: only what
    precedes the first hyphen counts. *)
Lemma clean_zip_kept w :
  forallb_str kept w = true ->
  clean_zip (Some w) =
    let p := split_head hyphen w in
    if is_empty p then None
    else if (len p <=? 5)%nat then Some (zfill 5 p)
    else if (len p =? 9)%nat then Some (take 5 p)
    else None.
Proof.
  intros Hw. unfold clean_zip. cbv zeta.
  rewrite (lower_kept _ Hw), (missing_kept _ Hw), !(strip_kept _ Hw).
  assert (Hp : (if contains hyphen w then split_head hyphen w else w) = split_head hyphen w).
  { destruct (contains hyphen w) eqn:Hc; [reflexivity |].
    symmetry. apply split_head_no_hyphen, Hc. }
  rewrite Hp. rewrite (isdigit_digits _ (split_head_digits _ Hw)).
  destruct w as [| c w]; [reflexivity |]. cbn [is_empty].
  destruct (is_empty (split_head hyphen (String c w))); reflexivity.
Qed.

Lemma clean_zip_digits z :
  forallb_str re_digit z = true -> z <> EmptyString ->
  clean_zip (Some z) =
    if (len z <=? 5)%nat then Some (zfill 5 z)
    else if (len z =? 9)%nat then Some (take 5 z)
    else None.
Proof.
  intros Hz Hne. rewrite (clean_zip_kept _ (digits_kept _ Hz)). cbv zeta.
  rewrite (split_head_no_hyphen _ (contains_digits _ Hz)).
  destruct z; [congruence | reflexivity].
Qed.

(** Whatever [clean_zip] returns passes the other two tests of
    [valid_mask]. *)
Lemma clean_zip_valid v z : clean_zip v = Some z -> valid_mask (Some z) = true.
Proof.
  unfold clean_zip. destruct v as [s |]; [| discriminate].
  destruct (str_in _ _); [discriminate |]. cbv zeta.
  set (p := if contains hyphen _ then _ else _).
  destruct (isdigit p) eqn:Hd; [| discriminate].
  unfold isdigit in Hd. apply andb_true_iff in Hd as [Hne Hall].
  destruct (Nat.leb_spec (len p) 5) as [Hle | Hgt].
  - intros Heq. assert (z = zfill 5 p) as -> by congruence. clear Heq.
    unfold valid_mask, isdigit.
    rewrite (zfill_digits _ _ Hall), len_append, len_zeros.
    replace (5 - len p + len p)%nat with 5%nat by lia. cbn [Nat.eqb andb].
    rewrite forallb_str_append, forallb_zeros, Hall.
    rewrite is_empty_len, len_append, len_zeros.
    replace (5 - len p + len p)%nat with 5%nat by lia. reflexivity.
  - destruct (Nat.eqb_spec (len p) 9) as [H9 | _]; [| discriminate].
    intros Heq. assert (z = take 5 p) as -> by congruence. clear Heq.
    unfold valid_mask, isdigit.
    rewrite len_take by lia. rewrite (forallb_take _ _ _ Hall).
    rewrite is_empty_len, len_take by lia. reflexivity.
Qed.

Lemma valid_mask_clean_zip v :
  valid_mask (clean_zip v) = match clean_zip v with Some _ => true | None => false end.
Proof.
  destruct (clean_zip v) as [z |] eqn:H; [| reflexivity].
  exact (clean_zip_valid _ _ H).
Qed.

End ZipFacts.

Module ZipTheorems.
Import PyStr Zip PyStrFacts ZipFacts.
Local Open Scope nat_scope.
Local Open Scope string_scope.

Lemma diagnose_kept w c :
  forallb_str kept w = true ->
  diagnose_zip_issue (Some w) c =
    if is_empty w then "Missing/Empty zip code"
    else if negb (existsb_str isdigit_char w) then "No digits in zip code"
    else
      let n := len (filter_str isdigit_char w) in
      if (n <? 5)%nat then "Too few digits (" ++ str_of_nat n ++ " digits)"
      else if (9 <? n)%nat then "Too many digits (" ++ str_of_nat n ++ " digits)"
      else if existsb (Nat.eqb n) [6; 7; 8]%nat
           then "Unusual zip length (" ++ str_of_nat n ++ " digits)"
      else "Other zip format issue".
Proof.
  intros Hw. unfold diagnose_zip_issue. cbv zeta.
  rewrite (lower_kept _ Hw), (missing_kept _ Hw), (strip_kept _ Hw).
  destruct (is_empty w); reflexivity.
Qed.

(** The digits of a stripped value are the digits of the raw one. *)
Lemma digits_strip_pass raw :
  filter_str isdigit_char (strip_pass raw) = filter_str re_digit raw.
Proof.
  unfold strip_pass. induction raw as [| c raw IH]; [reflexivity |].
  cbn [filter_str]. destruct (kept c) eqn:Hk.
  - cbn [filter_str]. rewrite (kept_isdigit _ Hk), IH. reflexivity.
  - rewrite IH. unfold kept in Hk. apply orb_false_iff in Hk as [-> _]. reflexivity.
Qed.

Lemma exists_filter_len p s : existsb_str p s = negb (len (filter_str p s) =? 0)%nat.
Proof.
  induction s as [| c s IH]; [reflexivity |]. cbn [existsb_str filter_str].
  destruct (p c); [reflexivity | exact IH].
Qed.

Lemma strip_pass_no_hyphen raw :
  contains hyphen raw = false -> strip_pass raw = filter_str re_digit raw.
Proof.
  unfold contains, strip_pass. induction raw as [| c raw IH]; [reflexivity |].
  cbn [existsb_str filter_str]. intros H. apply orb_false_iff in H as [Hc Hr].
  unfold kept at 1. rewrite eqb_hyphen_sym in Hc. rewrite Hc, orb_false_r, (IH Hr).
  reflexivity.
Qed.

Lemma contains_strip_pass raw : contains hyphen (strip_pass raw) = contains hyphen raw.
Proof.
  unfold contains, strip_pass. induction raw as [| c raw IH]; [reflexivity |].
  cbn [existsb_str filter_str]. destruct (kept c) eqn:Hk.
  - cbn [existsb_str]. rewrite IH. reflexivity.
  - rewrite IH. unfold kept in Hk. apply orb_false_iff in Hk as [_ Hh].
    rewrite eqb_hyphen_sym, Hh. reflexivity.
Qed.

(** A value without digits: the stripping pass leaves its hyphens. *)
Lemma digitless_strip_pass raw :
  existsb_str isdigit_char raw = false ->
  existsb_str isdigit_char (strip_pass raw) = false /\
  is_empty (strip_pass raw) = negb (contains hyphen raw).
Proof.
  unfold contains, strip_pass. induction raw as [| c raw IH]; [split; reflexivity |].
  cbn [existsb_str filter_str]. intros H. apply orb_false_iff in H as [Hc Hr].
  destruct (IH Hr) as [IH1 IH2].
  assert (Hd : re_digit c = false).
  { destruct (re_digit c) eqn:E; [| reflexivity].
    apply re_digit_isdigit in E. congruence. }
  assert (Hk : kept c = Ascii.eqb c hyphen) by (unfold kept; rewrite Hd; reflexivity).
  rewrite Hk, eqb_hyphen_sym.
  destruct (Ascii.eqb c hyphen) eqn:Hh.
  - cbn [existsb_str is_empty orb negb]. rewrite Hc, IH1. split; reflexivity.
  - cbn [orb]. split; assumption.
Qed.

(** C2.  On a value made of digits only (what the stripping pass leaves of
    an all-digit postal code), [clean_zip] pads up to five digits with
    zeros on the left, so a five-digit code is returned as it is; it keeps
    the first five digits of a nine-digit value and of a five-digit value
    followed by a hyphen and a suffix; for every other number of digits it
    returns [None]. *)
Theorem clean_zip_normalizes (z : string) :
  forallb_str re_digit z = true -> z <> EmptyString ->
  (len z <= 5 -> clean_zip (Some z) = Some (zeros (5 - len z) ++ z)) /\
  (len z = 5 -> clean_zip (Some z) = Some z) /\
  (len z = 9 -> clean_zip (Some z) = Some (take 5 z)) /\
  (len z = 5 -> forall plus4, forallb_str kept plus4 = true ->
     clean_zip (Some (z ++ String hyphen plus4)) = Some z) /\
  (5 < len z -> len z <> 9 -> clean_zip (Some z) = None) /\
  clean_zip (Some "123") = Some "00123" /\
  clean_zip (Some "12345-6789") = Some "12345" /\
  clean_zip (Some "123456789") = Some "12345".
Proof.
  intros Hz Hne.
  pose proof (clean_zip_digits z Hz Hne) as Hc.
  pose proof (forallb_str_impl _ _ _ re_digit_isdigit Hz) as Hd.
  assert (H5 : len z <= 5 -> clean_zip (Some z) = Some (zeros (5 - len z) ++ z)).
  { intros Hle. rewrite Hc. destruct (Nat.leb_spec (len z) 5); [| lia].
    rewrite (zfill_digits _ _ Hd). reflexivity. }
  repeat split; try reflexivity.
  - exact H5.
  - intros Hl. rewrite H5 by lia. rewrite Hl. reflexivity.
  - intros Hl. rewrite Hc, Hl. reflexivity.
  - intros Hl plus4 Hp.
    rewrite clean_zip_kept.
    + cbv zeta. rewrite (split_head_append_hyphen _ _ Hz).
      destruct z as [| c z]; [congruence |]. cbn [is_empty].
      rewrite Hl. cbn [Nat.leb]. rewrite (zfill_digits _ _ Hd), Hl. reflexivity.
    + rewrite forallb_str_append, (digits_kept _ Hz). cbn [forallb_str andb].
      rewrite Hp. reflexivity.
  - intros Hgt H9. rewrite Hc.
    destruct (Nat.leb_spec (len z) 5); [lia |].
    destruct (Nat.eqb_spec (len z) 9); [lia | reflexivity].
Qed.

Lemma clean_zip_normalizes_witness :
  forallb_str re_digit "501" = true /\ "501" <> EmptyString /\
  clean_zip (Some "501") = Some "00501".
Proof.
  split; [reflexivity |]. split; [discriminate |].
  apply (clean_zip_normalizes "501"); [reflexivity | discriminate | vm_compute; lia].
Defined.

End ZipTheorems.

Module LoaderFacts.
Import PyStr Zip Frame Resolver Loader PyStrFacts ZipFacts ZipTheorems.
Local Open Scope nat_scope.
Local Open Scope string_scope.

(** The three column passes of [process_zip_codes], row by row. *)
Lemma passes_processed rs :
  map (fun x => set_cleaned_zip (clean_zip (working_zip x)) x)
    (map (fun x => set_working_zip (option_map strip_pass (working_zip x)) x)
       (map (fun x => set_working_zip (Some (astype_str (working_zip x))) x) rs))
  = map processed rs.
Proof. rewrite !map_map. apply map_ext. intros x. reflexivity. Qed.

(** The partition [process_zip_codes] leaves in the session. *)
Lemma process_zip_codes_spec zip_source s d :
  df s = Some d ->
  let ps := map processed (rows d) in
  let cols := add_column "cleaned_zip" (columns d) in
  exists s',
    process_zip_codes zip_source s = Some s' /\
    df s' = Some (Frame (add_column "zip" cols)
                    (map (fun x => set_zip (cleaned_zip x) x)
                       (List.filter (fun x => valid_mask (cleaned_zip x)) ps))) /\
    invalid_zips_df s' =
      match List.filter (fun x => negb (valid_mask (cleaned_zip x))) ps with
      | [] => invalid_zips_df s
      | (_ :: _) as inv => Some (Frame cols inv)
      end /\
    zip_coords_cache s' = zip_coords_cache s /\
    requests s' = requests s.
Proof.
  intros Hd ps cols. unfold process_zip_codes. rewrite Hd. cbv zeta.
  rewrite passes_processed. fold ps. fold cols. eexists. split; [reflexivity |].
  cbn [rows]. destruct (List.filter (fun x => negb (valid_mask (cleaned_zip x))) ps); 
    cbn; repeat split; reflexivity.
Qed.

Lemma exported_rows_eq s d :
  invalid_zips_df s = Some d -> exported_rows s = map diagnosed (rows d).
Proof. intros H. unfold exported_rows, export_invalid_zips. rewrite H. reflexivity. Qed.

Lemma exported_rows_none s : invalid_zips_df s = None -> exported_rows s = [].
Proof. intros H. unfold exported_rows, export_invalid_zips. rewrite H. reflexivity. Qed.

(** A rejected row is among the rows the diagnosis annotates. *)
Lemma rejected_row_is_diagnosed zip_source s d x :
  df s = Some d -> In x (rows d) -> valid_mask (cleaned_zip (processed x)) = false ->
  exists s', process_zip_codes zip_source s = Some s' /\
             In (diagnosed (processed x)) (exported_rows s').
Proof.
  intros Hd Hx Hv.
  destruct (process_zip_codes_spec zip_source s d Hd) as (s' & Hp & _ & Hinv & _).
  exists s'. split; [exact Hp |].
  assert (Hin : In (processed x)
                  (List.filter (fun x => negb (valid_mask (cleaned_zip x))) (map processed (rows d)))).
  { apply filter_In. split; [apply in_map, Hx | rewrite Hv; reflexivity]. }
  destruct (List.filter _ _) as [| y inv] eqn:Hf; [destruct Hin |].
  rewrite (exported_rows_eq _ _ Hinv). apply in_map, Hin.
Qed.

(** In a session with no earlier invalid rows, an accepted row is kept in
    [df] with its cleaned code and is not among the diagnosed rows. *)
Lemma accepted_row_not_diagnosed zip_source s d x :
  df s = Some d -> invalid_zips_df s = None -> In x (rows d) ->
  valid_mask (cleaned_zip (processed x)) = true ->
  exists s' d', process_zip_codes zip_source s = Some s' /\ df s' = Some d' /\
    In (set_zip (cleaned_zip (processed x)) (processed x)) (rows d') /\
    ~ In (diagnosed (processed x)) (exported_rows s').
Proof.
  intros Hd Hnone Hx Hv.
  destruct (process_zip_codes_spec zip_source s d Hd) as (s' & Hp & Hdf & Hinv & _).
  eexists s', _. split; [exact Hp |]. split; [exact Hdf |]. split.
  - cbn [rows]. apply in_map with (f := fun x => set_zip (cleaned_zip x) x).
    apply filter_In. split; [apply in_map, Hx | exact Hv].
  - destruct (List.filter (fun x => negb (valid_mask (cleaned_zip x))) (map processed (rows d)))
      as [| y inv] eqn:Hf.
    + rewrite exported_rows_none by congruence. intros [].
    + rewrite (exported_rows_eq _ _ Hinv). cbn [rows]. rewrite <- Hf.
      intros Hin. apply in_map_iff in Hin as (y' & Heq & Hy').
      apply filter_In in Hy' as [_ Hy'].
      assert (Hc : cleaned_zip y' = cleaned_zip (processed x)).
      { change (cleaned_zip (diagnosed y') = cleaned_zip (diagnosed (processed x))).
        rewrite Heq. reflexivity. }
      rewrite Hc, Hv in Hy'. discriminate.
Qed.

Lemma working_zip_processed x raw :
  working_zip x = Some raw ->
  working_zip (processed x) = Some (strip_pass raw) /\
  cleaned_zip (processed x) = clean_zip (Some (strip_pass raw)).
Proof. intros H. unfold processed. cbn. rewrite H. split; reflexivity. Qed.

End LoaderFacts.

Module LoaderTheorems.
Import PyStr Zip Frame Resolver Loader Samples PyStrFacts ZipFacts ZipTheorems LoaderFacts.
Local Open Scope nat_scope.
Local Open Scope string_scope.

(** C5.  The diagnosis reads [working_zip], which the stripping pass has
    already overwritten.  A raw value with at least one character and no
    digit is rejected, and its diagnosis is "No digits in zip code" only
    when it contains a hyphen; any other such value (for instance "abc") is
    emptied by the pass and diagnosed "Missing/Empty zip code". *)
Theorem digitless_value_diagnosis zip_source s d x raw :
  df s = Some d -> In x (rows d) -> working_zip x = Some raw ->
  raw <> EmptyString -> existsb_str isdigit_char raw = false ->
  exists s',
    process_zip_codes zip_source s = Some s' /\
    In (diagnosed (processed x)) (exported_rows s') /\
    zip_issue (diagnosed (processed x)) =
      Some (if contains hyphen raw then "No digits in zip code"
            else "Missing/Empty zip code").
Proof.
  intros Hd Hx Hw Hne Hnd.
  destruct (working_zip_processed x raw Hw) as [Hwp Hcp].
  destruct (digitless_strip_pass raw Hnd) as [Hnd' Hempty].
  pose proof (strip_pass_kept raw) as Hk.
  assert (Hc : clean_zip (Some (strip_pass raw)) = None).
  { rewrite (clean_zip_kept _ Hk). cbv zeta.
    pose proof (split_head_digits _ Hk) as Hp.
    destruct (split_head hyphen (strip_pass raw)) as [| c p] eqn:Hs; [reflexivity |].
    exfalso. cbn [forallb_str] in Hp. apply andb_true_iff in Hp as [Hc _].
    apply re_digit_isdigit in Hc.
    assert (Hex : existsb_str isdigit_char (strip_pass raw) = true).
    { destruct (strip_pass raw) as [| c' w]; [discriminate |].
      cbn [split_head] in Hs. destruct (Ascii.eqb c' hyphen); [discriminate |].
      injection Hs as -> _. cbn [existsb_str]. rewrite Hc. reflexivity. }
    congruence. }
  destruct (rejected_row_is_diagnosed zip_source s d x Hd Hx) as (s' & Hp & Hin).
  { rewrite Hcp, Hc. reflexivity. }
  exists s'. split; [exact Hp |]. split; [exact Hin |].
  unfold diagnosed. cbn [zip_issue set_zip_issue]. rewrite Hwp, Hcp.
  rewrite (diagnose_kept _ _ Hk), Hempty, Hnd'.
  destruct (contains hyphen raw); reflexivity.
Qed.

Lemma digitless_value_diagnosis_witness :
  exists s',
    process_zip_codes "zip" (pending [working_row 0 "abc"]) = Some s' /\
    In (diagnosed (processed (working_row 0 "abc"))) (exported_rows s') /\
    zip_issue (diagnosed (processed (working_row 0 "abc"))) = Some "Missing/Empty zip code".
Proof.
  apply (digitless_value_diagnosis "zip" (pending [working_row 0 "abc"])
           (pending_frame [working_row 0 "abc"]) (working_row 0 "abc") "abc");
    [reflexivity | left; reflexivity | reflexivity | discriminate | reflexivity].
Defined.

(** The claim of C9 fails: "123456-789" has nine digits, is rejected (six
    digits precede its hyphen) and is diagnosed "Other zip format issue". *)
Lemma nine_digits_reach_diagnosis :
  len (filter_str re_digit "123456-789") = 9%nat /\
  exists s',
    process_zip_codes "zip" (pending [working_row 0 "123456-789"]) = Some s' /\
    In (diagnosed (processed (working_row 0 "123456-789"))) (exported_rows s') /\
    zip_issue (diagnosed (processed (working_row 0 "123456-789"))) =
      Some "Other zip format issue".
Proof.
  split; [reflexivity |]. eexists. split; [reflexivity |].
  split; [left; reflexivity | reflexivity].
Qed.

(** C9, amended.  For a raw value with nine digits in all, what precedes
    the first hyphen of its stripped form decides: with one to five digits
    or nine digits there, the value is accepted (padded, or cut to its first
    five digits), stays in [df] and is not diagnosed; otherwise it is
    rejected and diagnosed "Other zip format issue".  A value with nine
    digits and no hyphen is in the first case.  (The session is one with no
    invalid rows kept from an earlier load, which [export_invalid_zips]
    would diagnose again.) *)
Theorem nine_digit_values zip_source s d x raw :
  df s = Some d -> invalid_zips_df s = None -> In x (rows d) ->
  working_zip x = Some raw -> len (filter_str re_digit raw) = 9%nat ->
  let p := split_head hyphen (strip_pass raw) in
  let y := processed x in
  exists s' d',
    process_zip_codes zip_source s = Some s' /\ df s' = Some d' /\
    ((1 <= len p <= 5 \/ len p = 9)%nat ->
       cleaned_zip y = Some (if (len p <=? 5)%nat then zfill 5 p else take 5 p) /\
       In (set_zip (cleaned_zip y) y) (rows d') /\
       ~ In (diagnosed y) (exported_rows s')) /\
    (~ (1 <= len p <= 5 \/ len p = 9)%nat ->
       In (diagnosed y) (exported_rows s') /\
       zip_issue (diagnosed y) = Some "Other zip format issue") /\
    (contains hyphen raw = false -> len p = 9%nat).
Proof.
  intros Hd Hnone Hx Hw H9 p y.
  destruct (working_zip_processed x raw Hw) as [Hwp Hcp]. fold y in Hwp, Hcp.
  pose proof (strip_pass_kept raw) as Hk.
  pose proof (clean_zip_kept _ Hk) as Hc. cbv zeta in Hc. fold p in Hc.
  rewrite is_empty_len in Hc.
  destruct (process_zip_codes_spec zip_source s d Hd) as (s' & Hp & Hdf & _).
  eexists s', _. split; [exact Hp |]. split; [exact Hdf |].
  split; [| split].
  - intros Hacc.
    assert (Hcz : cleaned_zip y = Some (if (len p <=? 5)%nat then zfill 5 p else take 5 p)).
    { rewrite Hcp, Hc. destruct (Nat.eqb_spec (len p) 0); [lia |].
      destruct (Nat.leb_spec (len p) 5); [reflexivity |].
      destruct (Nat.eqb_spec (len p) 9); [reflexivity | lia]. }
    split; [exact Hcz |].
    destruct (accepted_row_not_diagnosed zip_source s d x Hd Hnone Hx)
      as (s2 & d2 & Hp2 & Hdf2 & Hin & Hout).
    { fold y. rewrite Hcz. apply (clean_zip_valid (Some (strip_pass raw))).
      rewrite <- Hcp. exact Hcz. }
    rewrite Hp in Hp2. injection Hp2 as <-. rewrite Hdf in Hdf2. injection Hdf2 as <-.
    split; assumption.
  - intros Hrej.
    assert (Hcz : cleaned_zip y = None).
    { rewrite Hcp, Hc. destruct (Nat.eqb_spec (len p) 0); [reflexivity |].
      destruct (Nat.leb_spec (len p) 5); [lia |].
      destruct (Nat.eqb_spec (len p) 9); [lia | reflexivity]. }
    destruct (rejected_row_is_diagnosed zip_source s d x Hd Hx) as (s2 & Hp2 & Hin).
    { fold y. rewrite Hcz. reflexivity. }
    rewrite Hp in Hp2. injection Hp2 as <-. split; [exact Hin |].
    unfold diagnosed. cbn [zip_issue set_zip_issue]. rewrite Hwp.
    rewrite (diagnose_kept _ _ Hk), exists_filter_len, is_empty_len.
    rewrite digits_strip_pass, H9.
    destruct (Nat.eqb_spec (len (strip_pass raw)) 0) as [H0 | _]; [| reflexivity].
    exfalso. pose proof (digits_strip_pass raw) as Hds.
    destruct (strip_pass raw); [| discriminate]. cbn in Hds. rewrite <- Hds in H9. discriminate.
  - intros Hnh. unfold p.
    rewrite split_head_no_hyphen by (rewrite contains_strip_pass; exact Hnh).
    rewrite (strip_pass_no_hyphen _ Hnh). exact H9.
Qed.

Lemma nine_digit_values_witness :
  exists s' d',
    process_zip_codes "zip" (pending [working_row 0 "123456789"]) = Some s' /\
    df s' = Some d' /\
    cleaned_zip (processed (working_row 0 "123456789")) = Some "12345" /\
    ~ In (diagnosed (processed (working_row 0 "123456789"))) (exported_rows s').
Proof.
  destruct (nine_digit_values "zip" (pending [working_row 0 "123456789"])
              (pending_frame [working_row 0 "123456789"])
              (working_row 0 "123456789") "123456789"
              eq_refl eq_refl (or_introl eq_refl) eq_refl eq_refl)
    as (s' & d' & Hp & Hdf & Hacc & _).
  exists s', d'. split; [exact Hp |]. split; [exact Hdf |].
  destruct Hacc as (Hc & _ & Hout); [right; reflexivity |].
  split; [exact Hc | exact Hout].
Defined.

End LoaderTheorems.

Module ColumnTheorems.
Import PyStr Zip Frame Resolver Loader Samples LoaderFacts.
Local Open Scope nat_scope.
Local Open Scope string_scope.

Lemma missing_cols_nil cols :
  missing_cols cols = [] <-> forall c, In c required_cols -> has_column c cols = true.
Proof.
  unfold missing_cols. split.
  - intros H c Hc. destruct (has_column c cols) eqn:E; [reflexivity |].
    assert (Hin : In c (List.filter (fun col => negb (has_column col cols)) required_cols)).
    { apply filter_In. split; [exact Hc | rewrite E; reflexivity]. }
    rewrite H in Hin. destruct Hin.
  - intros H. destruct (List.filter _ required_cols) as [| c l] eqn:E; [reflexivity |].
    assert (Hin : In c (List.filter (fun col => negb (has_column col cols)) required_cols))
      by (rewrite E; left; reflexivity).
    apply filter_In in Hin as [Hc Hn]. rewrite (H c Hc) in Hn. discriminate.
Qed.

Lemma missing_cols_cons cols :
  missing_cols cols <> [] <-> exists c, In c required_cols /\ has_column c cols = false.
Proof.
  rewrite missing_cols_nil. split.
  - intros H. destruct (forallb (fun c => has_column c cols) required_cols) eqn:E.
    + exfalso. apply H. intros c Hc. rewrite forallb_forall in E. exact (E c Hc).
    + assert (Hex : existsb (fun c => negb (has_column c cols)) required_cols = true).
      { clear H. induction required_cols as [| c l IH]; [discriminate |].
        cbn in *. destruct (has_column c cols); [exact (IH E) | reflexivity]. }
      apply existsb_exists in Hex as (c & Hc & Hn). exists c. split; [exact Hc |].
      destruct (has_column c cols); [discriminate | reflexivity].
  - intros (c & Hc & Hn) H. rewrite (H c Hc) in Hn. discriminate.
Qed.

Lemma fails_with_show e e' s : fails_with e (false, show e' s) -> e = e'.
Proof.
  intros [_ [shown H]]. cbn in H. apply app_inj_tail in H as [_ H]. congruence.
Qed.

Lemma show_fails e s : fails_with e (false, show e s).
Proof. split; [reflexivity | exists (ui s); reflexivity]. Qed.

Section WithService.

Variable api : nat -> string -> http_result.

(** Past the column checks, [load_excel_file] returns [True] or shows
    "Error loading file". *)
Lemma load_outcomes d s :
  let cols := rename (normalize_columns (columns d)) in
  let s0 := set_df (Some (Frame cols (rows d))) s in
  let out := load_excel_file api (Some d) s in
  match missing_cols cols with
  | (_ :: _) as missing => out = (false, show (error_missing_required_columns missing) s0)
  | [] =>
      if has_column "zip_short" cols || has_column "zip" cols
      then out.1 = true \/ exists s', out = (false, show error_loading_file s')
      else out = (false, show error_no_zip_column s0)
  end.
Proof.
  cbv zeta. unfold load_excel_file.
  destruct (missing_cols _) as [| c l]; [| reflexivity].
  destruct (has_column "zip_short" _); cbn [orb].
  - destruct (process_zip_codes _ _) as [s1 |]; [| right; eexists; reflexivity].
    destruct (_ || _).
    + destruct (add_coordinates _ _); [left; reflexivity | right; eexists; reflexivity].
    + left; reflexivity.
  - destruct (has_column "zip" _); [| reflexivity].
    destruct (process_zip_codes _ _) as [s1 |]; [| right; eexists; reflexivity].
    destruct (_ || _).
    + destruct (add_coordinates _ _); [left; reflexivity | right; eexists; reflexivity].
    + left; reflexivity.
Qed.

End WithService.

(** C7.  For every table read, with [cols] its headers after
    normalization and renaming: the load fails showing "Missing required
    columns" exactly when one of terminal, location, address, city, state is
    not among [cols]; it fails showing "No zip code column found" exactly
    when those five are among [cols] and neither zip_short nor zip is. *)
Theorem load_column_errors (api : nat -> string -> http_result) (d : frame) (s : state) :
  let cols := rename (normalize_columns (columns d)) in
  let out := load_excel_file api (Some d) s in
  ((exists missing, fails_with (error_missing_required_columns missing) out) <->
   (exists c, In c required_cols /\ has_column c cols = false)) /\
  (fails_with error_no_zip_column out <->
   ((forall c, In c required_cols -> has_column c cols = true) /\
    has_column "zip_short" cols = false /\ has_column "zip" cols = false)).
Proof.
  intros cols out. pose proof (load_outcomes api d s) as H. cbv zeta in H.
  fold cols in H. fold out in H.
  rewrite <- missing_cols_cons, <- missing_cols_nil.
  destruct (missing_cols cols) as [| c l] eqn:Hm.
  - destruct (has_column "zip_short" cols) eqn:Hs; cbn [orb] in H;
      [| destruct (has_column "zip" cols) eqn:Hz].
    1,2: assert (Hno : forall e, e <> error_loading_file -> ~ fails_with e out)
        by (intros e He Hf; destruct H as [H | [s' H]];
            [destruct Hf as [Hf _]; congruence
            | rewrite H in Hf; apply fails_with_show in Hf; congruence]).
    1,2: split; split;
        [ intros [m Hf]; exfalso; eapply Hno; [| exact Hf]; discriminate
        | congruence
        | intros Hf; exfalso; eapply Hno; [| exact Hf]; discriminate
        | intros (_ & ? & ?); congruence ].
    rewrite H. split; split.
    + intros [m Hf]. apply fails_with_show in Hf. discriminate.
    + congruence.
    + intros _. repeat split; reflexivity.
    + intros _. apply show_fails.
  - rewrite H. split; split.
    + intros _. discriminate.
    + intros _. exists (c :: l). apply show_fails.
    + intros Hf. apply fails_with_show in Hf. discriminate.
    + intros (Hnil & _). discriminate.
Qed.

(** The two examples of the specification: a table without a city column,
    and a table with the required columns and no postal column. *)
Example load_without_city api :
  load_excel_file api
    (Some (Frame ["Terminal"; "Location"; "Address"; "St"; "Zip"] [])) init
  = (false,
     State (Some (Frame ["terminal"; "location"; "address"; "state"; "zip"] []))
           None ∅ [] [error_missing_required_columns ["city"]]).
Proof. reflexivity. Qed.

Example load_without_postal_column api :
  load_excel_file api
    (Some (Frame [" Terminal"; "LOCATION"; "Address "; "City"; "St"; "Zip Long"] [])) init
  = (false,
     State (Some (Frame ["terminal"; "location"; "address"; "city"; "state"; "zip_long"] []))
           None ∅ [] [error_no_zip_column]).
Proof. reflexivity. Qed.

(** A whole load: five rows, of which three have a valid code; the two
    distinct codes are requested once each, and the two rejected rows are
    exported with their diagnoses. *)
Example load_sample (lat lon : R) :
  let out :=
    load_excel_file (api_at lat lon)
      (Some (Frame headers [postal_row 0 "10001"; postal_row 1 "abc";
                            postal_row 2 "123456-789"; postal_row 3 "501";
                            postal_row 4 "10001-1234"])) init in
  out.1 = true /\
  option_map (fun d => map (fun x => (index x, zip x, latitude x, longitude x)) (rows d))
             (df out.2)
  = Some [(0, Some "10001", Some lat, Some lon);
          (3, Some "00501", Some lat, Some lon);
          (4, Some "10001", Some lat, Some lon)] /\
  map (fun x => (index x, zip_issue x)) (exported_rows out.2)
  = [(1, Some "Missing/Empty zip code"); (2, Some "Other zip format issue")] /\
  requests out.2 = ["10001"; "00501"] /\
  ui out.2 = [warning_invalid_zip_records 2; success_coordinates_added].
Proof. vm_compute. repeat split. Qed.

End ColumnTheorems.

Module LoadedFacts.
Import PyStr Zip Frame Resolver Loader Samples ZipFacts LoaderFacts.
Local Open Scope nat_scope.
Local Open Scope string_scope.

Lemma has_column_add c cols : has_column c (add_column c cols) = true.
Proof.
  unfold add_column. destruct (has_column c cols) eqn:E; [exact E |].
  unfold has_column. rewrite existsb_app. cbn. rewrite String.eqb_refl. apply orb_true_r.
Qed.

Lemma has_column_add_other c c' cols :
  has_column c cols = true -> has_column c (add_column c' cols) = true.
Proof.
  intros H. unfold add_column. destruct (has_column c' cols); [exact H |].
  unfold has_column in *. rewrite existsb_app, H. reflexivity.
Qed.

Lemma valid_mask_true c : valid_mask c = true -> exists z, c = Some z /\ len z = 5 /\ isdigit z = true.
Proof.
  destruct c as [z |]; [| discriminate]. cbn. intros H.
  apply andb_true_iff in H as [Hl Hd]. apply Nat.eqb_eq in Hl. eauto.
Qed.

(** After [process_zip_codes] every row of [df] has a canonical code. *)
Lemma process_zip_codes_canonical zip_source s s' d' :
  process_zip_codes zip_source s = Some s' -> df s' = Some d' ->
  Forall canonical (rows d').
Proof.
  intros Hp Hdf. destruct (df s) as [d |] eqn:Hd.
  - destruct (process_zip_codes_spec zip_source s d Hd) as (s2 & Hp2 & Hdf2 & _).
    rewrite Hp in Hp2. injection Hp2 as <-. rewrite Hdf in Hdf2. injection Hdf2 as ->.
    cbn [rows]. apply List.Forall_forall. intros y Hy.
    apply in_map_iff in Hy as (x & <- & Hx). apply filter_In in Hx as [_ Hv].
    exact (valid_mask_true _ Hv).
  - unfold process_zip_codes in Hp. rewrite Hd in Hp. discriminate.
Qed.

Section WithService.

Variable api : nat -> string -> http_result.

(** [add_coordinates] adds the two coordinate columns and changes no other
    cell. *)
Lemma add_coordinates_spec s s' :
  add_coordinates api s = Some s' ->
  exists d d', df s = Some d /\ df s' = Some d' /\
    has_column "latitude" (columns d') = true /\
    has_column "longitude" (columns d') = true /\
    map zip (rows d') = map zip (rows d) /\
    map index (rows d') = map index (rows d).
Proof.
  unfold add_coordinates. destruct (df s) as [d |]; [| discriminate].
  destruct (resolve_unique _ _ _ _ _) as [[zc failed] s1].
  intros Heq. exists d.
  eexists (Frame (add_column "longitude" (add_column "latitude" (columns d))) _).
  split; [reflexivity |]. split.
  - destruct failed; injection Heq as <-; reflexivity.
  - cbn [columns rows]. split; [apply has_column_add_other, has_column_add |].
    split; [apply has_column_add |].
    rewrite !map_map. split; apply map_ext; reflexivity.
Qed.

(** A successful load leaves a table with both coordinate columns whose
    rows all have a canonical postal code. *)
Lemma load_success uploaded_file s s' :
  load_excel_file api uploaded_file s = (true, s') ->
  exists d, df s' = Some d /\
    has_column "latitude" (columns d) = true /\
    has_column "longitude" (columns d) = true /\
    Forall canonical (rows d).
Proof.
  unfold load_excel_file. destruct uploaded_file as [d0 |]; [| discriminate].
  destruct (missing_cols _); [| discriminate].
  assert (Hcont : forall s0 zs,
            match process_zip_codes zs s0 with
            | Some s1 =>
                if negb (has_column "latitude"
                           match df s1 with Some d' => columns d' | None => [] end)
                   || negb (has_column "longitude"
                           match df s1 with Some d' => columns d' | None => [] end)
                then match add_coordinates api s1 with
                     | Some s2 => (true, s2)
                     | None => (false, show error_loading_file s1)
                     end
                else (true, s1)
            | None => (false, show error_loading_file s0)
            end = (true, s') ->
            exists d, df s' = Some d /\
              has_column "latitude" (columns d) = true /\
              has_column "longitude" (columns d) = true /\
              Forall canonical (rows d)).
  { intros s0 zs. destruct (process_zip_codes zs s0) as [s1 |] eqn:Hp; [| discriminate].
    destruct (df s1) as [d1 |] eqn:Hd1.
    - pose proof (process_zip_codes_canonical _ _ _ _ Hp Hd1) as Hcan.
      destruct (negb (has_column "latitude" (columns d1))
                || negb (has_column "longitude" (columns d1))) eqn:Hc.
      + destruct (add_coordinates api s1) as [s2 |] eqn:Ha; [| discriminate].
        intros [= <-].
        destruct (add_coordinates_spec _ _ Ha) as (d & d' & Hd & Hd' & Hlat & Hlon & Hz & _).
        exists d'. repeat split; try assumption.
        rewrite Hd1 in Hd. injection Hd as <-.
        apply List.Forall_forall. intros y Hy.
        assert (Hzy : In (zip y) (map zip (rows d1))) by (rewrite <- Hz; apply in_map, Hy).
        apply in_map_iff in Hzy as (x & Hx & Hin).
        rewrite List.Forall_forall in Hcan. destruct (Hcan x Hin) as (z & Hzx & Hl & Hdg).
        exists z. repeat split; congruence.
      + intros [= <-]. exists d1. apply orb_false_iff in Hc as [Hlat Hlon].
        apply negb_false_iff in Hlat, Hlon. repeat split; assumption.
    - cbn [has_column existsb negb orb].
      destruct (add_coordinates api s1) as [s2 |] eqn:Ha; [| discriminate].
      unfold add_coordinates in Ha. rewrite Hd1 in Ha. discriminate. }
  destruct (has_column "zip_short" _); [apply Hcont |].
  destruct (has_column "zip" _); [apply Hcont | discriminate].
Qed.

End WithService.

End LoadedFacts.

Module ResolverFacts.
Import Frame Resolver Loader Search Session.
Local Open Scope nat_scope.

Section WithService.

Variable api : nat -> string -> http_result.

Lemma get_cached z s c :
  zip_coords_cache s !! z = Some c -> get_zip_coordinates api z s = (c, s).
Proof. intros H. unfold get_zip_coordinates. rewrite H. reflexivity. Qed.

Ltac resolver_cases z s :=
  unfold get_zip_coordinates;
  destruct (zip_coords_cache s !! z) as [c |] eqn:Hc;
  [| destruct (api (length (requests s)) z) as [code [[lat lon] |] |];
     [destruct (code =? 200)%Z | destruct (code =? 200)%Z |] ].

(** The result of a call is in the cache when it returns. *)
Lemma get_stores z s :
  zip_coords_cache (get_zip_coordinates api z s).2 !! z
  = Some (get_zip_coordinates api z s).1.
Proof. resolver_cases z s; cbn; rewrite ?lookup_insert_eq; auto. Qed.

(** A call only adds to the cache. *)
Lemma get_extends z s :
  zip_coords_cache s ⊆ zip_coords_cache (get_zip_coordinates api z s).2.
Proof. resolver_cases z s; cbn; try reflexivity; apply insert_subseteq, Hc. Qed.

Lemma get_same_tables z s : same_tables s (get_zip_coordinates api z s).2.
Proof. resolver_cases z s; repeat split. Qed.

(** A call on a code absent from the cache issues one request and returns
    the coordinates of a 200 response that has them, [None] otherwise. *)
Lemma get_miss z s :
  zip_coords_cache s !! z = None ->
  requests (get_zip_coordinates api z s).2 = (requests s ++ [z])%list /\
  (get_zip_coordinates api z s).1 =
    match api (length (requests s)) z with
    | Response code (Some place) => if (code =? 200)%Z then Some place else None
    | _ => None
    end.
Proof. intros H. resolver_cases z s; [congruence | ..]; split; reflexivity. Qed.

End WithService.

(** ** What a session preserves

    Every action reaches the cache and the request log through
    [get_zip_coordinates] alone: a property of the session that each call
    of it preserves, and that depends on the cache and the log only, holds
    throughout a session. *)

Section Preservation.

Variable api : nat -> string -> http_result.
Variable sort_values : list row -> list row.
Variable P : state -> Prop.

Hypothesis P_get : forall z s, P s -> P (get_zip_coordinates api z s).2.
Hypothesis P_tables :
  forall s s', zip_coords_cache s' = zip_coords_cache s -> requests s' = requests s ->
               P s -> P s'.

Lemma resolve_unique_preserves zips zc failed s :
  P s -> P (resolve_unique api zips zc failed s).2.
Proof.
  revert zc failed s. induction zips as [| z zips IH]; intros zc failed s Hs; [exact Hs |].
  cbn [resolve_unique]. pose proof (P_get z s Hs) as H.
  destruct (get_zip_coordinates api z s) as [c s1]. apply IH, H.
Qed.

Lemma add_coordinates_preserves s s' : add_coordinates api s = Some s' -> P s -> P s'.
Proof.
  unfold add_coordinates. destruct (df s) as [d |]; [| discriminate]. intros Heq Hs.
  pose proof (resolve_unique_preserves (unique (map zip_key (rows d))) ∅ [] s Hs) as H.
  destruct (resolve_unique _ _ _ _ _) as [[zc failed] s1]. cbn [snd] in H.
  destruct failed; injection Heq as <-; revert H; apply P_tables; reflexivity.
Qed.

Lemma process_zip_codes_preserves zip_source s s' :
  process_zip_codes zip_source s = Some s' -> P s -> P s'.
Proof.
  unfold process_zip_codes. destruct (df s); [| discriminate]. cbv zeta.
  destruct (_ <? _)%nat; intros [= <-]; apply P_tables; reflexivity.
Qed.

Lemma load_preserves uploaded_file s : P s -> P (load_excel_file api uploaded_file s).2.
Proof.
  intros Hs. unfold load_excel_file.
  destruct uploaded_file as [d |]; [| revert Hs; apply P_tables; reflexivity].
  destruct (missing_cols _); [| revert Hs; apply P_tables; reflexivity].
  assert (Hcont : forall s0 zs, P s0 ->
            P (match process_zip_codes zs s0 with
               | Some s1 =>
                   if negb (has_column "latitude"
                              match df s1 with Some d' => columns d' | None => [] end)
                      || negb (has_column "longitude"
                              match df s1 with Some d' => columns d' | None => [] end)
                   then match add_coordinates api s1 with
                        | Some s2 => (true, s2)
                        | None => (false, show error_loading_file s1)
                        end
                   else (true, s1)
               | None => (false, show error_loading_file s0)
               end).2).
  { intros s0 zs H0. destruct (process_zip_codes zs s0) as [s1 |] eqn:Hp;
      [| revert H0; apply P_tables; reflexivity].
    pose proof (process_zip_codes_preserves _ _ _ Hp H0) as H1.
    destruct (_ || _); [| exact H1].
    destruct (add_coordinates api s1) as [s2 |] eqn:Ha.
    - exact (add_coordinates_preserves _ _ Ha H1).
    - revert H1; apply P_tables; reflexivity. }
  destruct (has_column "zip_short" _);
    [apply Hcont; revert Hs; apply P_tables; reflexivity |].
  destruct (has_column "zip" _);
    [apply Hcont | ]; revert Hs; apply P_tables; reflexivity.
Qed.

Lemma search_preserves z radius s :
  P s -> P (search_atms_by_radius api sort_values z radius s).2.
Proof.
  intros Hs. unfold search_atms_by_radius. pose proof (P_get z s Hs) as H.
  destruct (get_zip_coordinates api z s) as [[[lat lon] |] s1]; cbn [snd] in H;
    [| revert H; apply P_tables; reflexivity].
  destruct (df s1) as [d |]; [| revert H; apply P_tables; reflexivity].
  destruct (distances _ _ _ _); revert H; apply P_tables; reflexivity.
Qed.

Lemma main_search_preserves button z radius s :
  P s -> P (main_search api sort_values button z radius s).
Proof.
  intros Hs. unfold main_search. destruct (_ && _); [| exact Hs].
  destruct (_ && _); [| revert Hs; apply P_tables; reflexivity].
  pose proof (search_preserves z radius s Hs) as H.
  destruct (search_atms_by_radius _ _ _ _ _) as [res s1]. cbn [snd] in H.
  destruct (negb _); revert H; apply P_tables; reflexivity.
Qed.

Lemma step_preserves s a : P s -> P (step api sort_values s a).
Proof.
  destruct a; cbn [step];
    [apply load_preserves | apply P_get | apply search_preserves
    | apply main_search_preserves].
Qed.

Lemma run_preserves actions s : P s -> P (run api sort_values actions s).
Proof.
  revert s. induction actions as [| a actions IH]; intros s Hs; [exact Hs |].
  cbn. apply IH, step_preserves, Hs.
Qed.

End Preservation.

Section WithEnvironment.

Variable api : nat -> string -> http_result.
Variable sort_values : list row -> list row.

(** Nothing a session does removes or changes an entry of the cache. *)
Lemma run_extends actions s :
  zip_coords_cache s ⊆ zip_coords_cache (run api sort_values actions s).
Proof.
  apply (run_preserves api sort_values
           (fun s' => zip_coords_cache s ⊆ zip_coords_cache s')); [| | reflexivity].
  - intros z s' H. etransitivity; [exact H | apply get_extends].
  - intros s1 s2 Hc _ H. rewrite Hc. exact H.
Qed.

Lemma get_keeps_requests_cached z s :
  requests_cached s -> requests_cached (get_zip_coordinates api z s).2.
Proof.
  intros [Hnd Hin]. unfold get_zip_coordinates.
  destruct (zip_coords_cache s !! z) as [c |] eqn:Hc; [split; assumption |].
  assert (Hfresh : ~ In z (requests s)).
  { intros Hz. destruct (Hin z Hz) as [c Hc']. congruence. }
  assert (Hnd' : List.NoDup (requests s ++ [z])).
  { apply List.NoDup_app; [exact Hnd | repeat constructor; intros [] |].
    intros x Hx [<- | []]. exact (Hfresh Hx). }
  assert (Hin' : forall v z', In z' (requests s ++ [z]) ->
                   is_Some (<[z := v]> (zip_coords_cache s) !! z')).
  { intros v z' Hz'. apply lookup_insert_is_Some. apply in_app_or in Hz' as [Hz' | [-> | []]].
    - destruct (decide (z = z')) as [-> | Hne]; [left; reflexivity |].
      right. split; [exact Hne | exact (Hin z' Hz')].
    - left; reflexivity. }
  destruct (api (length (requests s)) z) as [code [[lat lon] |] |];
    [destruct (code =? 200)%Z | destruct (code =? 200)%Z |];
    split; cbn; auto.
Qed.

(** In a session no postal code is requested twice, and every code
    requested is in the cache. *)
Lemma run_keeps_requests_cached actions s :
  requests_cached s -> requests_cached (run api sort_values actions s).
Proof.
  apply (run_preserves api sort_values requests_cached).
  - apply get_keeps_requests_cached.
  - intros s1 s2 Hc Hr [Hnd Hin]. split; rewrite ?Hr, ?Hc; assumption.
Qed.

Lemma requests_never_repeat actions : List.NoDup (requests (run api sort_values actions init)).
Proof.
  apply run_keeps_requests_cached. split; [constructor | intros z []].
Qed.

End WithEnvironment.


(** C3.  A call of [get_zip_coordinates] leaves its result in the cache,
    a pair of coordinates or [None] alike; whatever the session does next,
    a later call for the same code returns that result, changes nothing and
    issues no request.  On a code the cache lacks, every outcome of the
    request other than a 200 response with coordinates yields [None], which
    is stored like any other result. *)
Theorem resolve_is_cached (api : nat -> string -> http_result)
    (sort_values : list row -> list row) (z : string) (s : state) (actions : list action) :
  let first := get_zip_coordinates api z s in
  let later := run api sort_values actions first.2 in
  zip_coords_cache first.2 !! z = Some first.1 /\
  get_zip_coordinates api z later = (first.1, later) /\
  requests (get_zip_coordinates api z later).2 = requests later /\
  (zip_coords_cache s !! z = None ->
   first.1 = match api (length (requests s)) z with
             | Response code (Some place) => if (code =? 200)%Z then Some place else None
             | _ => None
             end).
Proof.
  intros first later.
  pose proof (get_stores api z s) as Hst. fold first in Hst.
  assert (Hl : zip_coords_cache later !! z = Some first.1).
  { eapply lookup_weaken; [exact Hst | apply run_extends]. }
  pose proof (get_cached api z later _ Hl) as Hg.
  repeat split; [exact Hst | exact Hg | rewrite Hg; reflexivity |].
  intros Hmiss. apply (get_miss api z s Hmiss).
Qed.

Lemma resolve_is_cached_witness :
  let first := get_zip_coordinates Samples.api_not_found "99999" init in
  zip_coords_cache init !! "99999" = None /\
  first.1 = None /\
  zip_coords_cache first.2 !! "99999" = Some None /\
  get_zip_coordinates Samples.api_not_found "99999" first.2 = (None, first.2).
Proof.
  pose proof (resolve_is_cached Samples.api_not_found (fun l => l) "99999" init [])
    as (Hst & Hg & _ & Hfail).
  split; [reflexivity |]. split; [exact (Hfail eq_refl) |].
  split; [exact Hst | exact Hg].
Defined.

End ResolverFacts.

Module SearchFacts.
Import Haversine Frame Resolver Search ResolverFacts.

(** ** The order of distances *)

Lemma distance_leb_le a b : distance_leb a b = true <-> distance_le a b.
Proof.
  destruct a as [x |], b as [y |]; cbn; try tauto.
  - destruct (Rle_dec x y); split; intros; try tauto; discriminate.
  - split; [discriminate | tauto].
Qed.

Lemma distance_leb_total a b : distance_leb a b = false -> distance_le b a.
Proof.
  destruct a as [x |], b as [y |]; cbn; try tauto; try discriminate.
  destruct (Rle_dec x y); [discriminate | intros _; lra].
Qed.

Lemma distance_le_refl a : distance_le a a.
Proof. destruct a; cbn; [lra | exact I]. Qed.

Lemma distance_le_trans a b c : distance_le a b -> distance_le b c -> distance_le a c.
Proof. destruct a, b, c; cbn; try tauto; lra. Qed.

(** ** The two insertion sorts keep the promise of [sort_values] *)

Lemma stable_insert_perm x l : Permutation (x :: l) (stable_insert x l).
Proof.
  induction l as [| y l IH]; cbn; [reflexivity |].
  destruct (distance_leb _ _); [reflexivity |].
  rewrite perm_swap. apply perm_skip, IH.
Qed.

Lemma stable_insert_hd x y l :
  by_column y x -> HdRel by_column y l -> HdRel by_column y (stable_insert x l).
Proof.
  intros Hyx Hl. destruct l as [| z l]; cbn; [constructor; exact Hyx |].
  destruct (distance_leb _ _); constructor; [exact Hyx |].
  inversion Hl; assumption.
Qed.

Lemma stable_insert_sorted x l : Sorted by_column l -> Sorted by_column (stable_insert x l).
Proof.
  induction 1 as [| y l Hs IH Hhd]; cbn; [repeat constructor |].
  destruct (distance_leb (distance_miles x) (distance_miles y)) eqn:E.
  - constructor; [constructor; assumption |].
    constructor. apply distance_leb_le, E.
  - constructor; [exact IH |].
    apply stable_insert_hd; [apply distance_leb_total, E | exact Hhd].
Qed.

Lemma stable_sort_sorts : sorts_by_distance stable_sort.
Proof.
  intros l. induction l as [| x l [IHp IHs]]; cbn; [split; constructor |].
  split.
  - etransitivity; [apply perm_skip, IHp | apply stable_insert_perm].
  - apply stable_insert_sorted, IHs.
Qed.

(** ** Sorted lists *)

Lemma HdRel_in {A} (R1 R2 : A -> A -> Prop) a l :
  (forall b, In b l -> R1 a b -> R2 a b) -> HdRel R1 a l -> HdRel R2 a l.
Proof. intros H Hh. destruct Hh; constructor. apply H; [left; reflexivity | assumption]. Qed.

Lemma Sorted_in {A} (R1 R2 : A -> A -> Prop) l :
  (forall a b, In a l -> In b l -> R1 a b -> R2 a b) -> Sorted R1 l -> Sorted R2 l.
Proof.
  intros H Hs. induction Hs as [| a l Hs IH Hh]; constructor.
  - apply IH. intros x y Hx Hy. apply H; right; assumption.
  - eapply HdRel_in; [| exact Hh].
    intros b Hb. apply H; [left; reflexivity | right; exact Hb].
Qed.

Lemma Sorted_map {A B} (R : B -> B -> Prop) (f : A -> B) l :
  Sorted (fun a b => R (f a) (f b)) l -> Sorted R (map f l).
Proof.
  induction 1 as [| a l Hs IH Hh]; cbn; constructor; [exact IH |].
  destruct Hh; cbn; constructor; assumption.
Qed.

Lemma filter_map {A B} (p : B -> bool) (f : A -> B) l :
  List.filter p (map f l) = map f (List.filter (fun x => p (f x)) l).
Proof.
  induction l as [| x l IH]; cbn; [reflexivity |].
  destruct (p (f x)); cbn; rewrite IH; reflexivity.
Qed.

(** ** Rounding keeps the order *)

Lemma Int_part_mono x y : x <= y -> (Int_part x <= Int_part y)%Z.
Proof.
  intros H. destruct (base_Int_part x) as [Hx _], (base_Int_part y) as [_ Hy].
  assert (Hlt : IZR (Int_part x) < IZR (Int_part y + 1)) by (rewrite plus_IZR; lra).
  apply lt_IZR in Hlt. lia.
Qed.

Lemma rint_bounds y : (Int_part y <= rint y <= Int_part y + 1)%Z.
Proof.
  unfold rint. cbv zeta.
  destruct (Rlt_dec _ _); [lia |]. destruct (Rlt_dec _ _); [lia |].
  destruct (Z.even _); lia.
Qed.

Lemma rint_mono x y : x <= y -> (rint x <= rint y)%Z.
Proof.
  intros H. pose proof (Int_part_mono x y H) as Hn.
  destruct (Z.eq_dec (Int_part x) (Int_part y)) as [He | Hne].
  - unfold rint, frac_part. cbv zeta. rewrite He.
    repeat match goal with
           | |- context [Rlt_dec ?a ?b] => destruct (Rlt_dec a b)
           end; try lia; try lra; destruct (Z.even _); lia.
  - pose proof (rint_bounds x). pose proof (rint_bounds y). lia.
Qed.

Lemma round2_mono x y : x <= y -> round2 x <= round2 y.
Proof.
  intros H. unfold round2.
  assert (Hr : (rint (x * 100) <= rint (y * 100))%Z) by (apply rint_mono; lra).
  apply IZR_le in Hr. lra.
Qed.

Lemma round_distance_mono a b :
  distance_le a b -> distance_le (round_distance a) (round_distance b).
Proof. destruct a, b; cbn; try tauto. apply round2_mono. Qed.

End SearchFacts.

Module SearchTheorems.
Import Haversine PyStr Frame Resolver Search Samples ResolverFacts SearchFacts.
Local Open Scope string_scope.

Lemma row_distance_eq cols lat0 lon0 x :
  has_column "latitude" cols = true -> has_column "longitude" cols = true ->
  row_distance cols lat0 lon0 x = Some (row_miles lat0 lon0 x).
Proof.
  intros Hlat Hlon. unfold row_distance, row_miles. rewrite Hlat, Hlon. cbn [negb].
  destruct (latitude x) as [lat |]; [| reflexivity].
  destruct (longitude x) as [lon |]; [| reflexivity].
  rewrite HaversineFacts.haversine_is_great_circle. reflexivity.
Qed.

Lemma distances_eq cols lat0 lon0 rs :
  has_column "latitude" cols = true -> has_column "longitude" cols = true ->
  distances cols lat0 lon0 rs = Some (map (row_miles lat0 lon0) rs).
Proof.
  intros Hlat Hlon. induction rs as [| x rs IH]; [reflexivity |].
  cbn [distances map]. rewrite (row_distance_eq _ _ _ _ Hlat Hlon), IH. reflexivity.
Qed.

Lemma assign_distances_map (f : row -> distance) rs :
  assign_distances rs (map f rs) = map (fun x => set_distance_miles (f x) x) rs.
Proof. induction rs as [| x rs IH]; cbn; [reflexivity | rewrite IH; reflexivity]. Qed.

Lemma keep_measured lat0 lon0 radius x :
  le_radius (distance_miles (measured lat0 lon0 x)) radius
  && not_inf (distance_miles (measured lat0 lon0 x)) = within lat0 lon0 radius x.
Proof.
  unfold measured, within, row_miles. cbn [distance_miles set_distance_miles].
  destruct (latitude x), (longitude x); cbn; try reflexivity.
  destruct (Rle_dec _ _); reflexivity.
Qed.

Section WithEnvironment.

Variable api : nat -> string -> http_result.
Variable sort_values : list row -> list row.

(** The search on a resolved target and a table with both coordinate
    columns, step by step. *)
Lemma search_resolved z radius s lat0 lon0 d :
  (get_zip_coordinates api z s).1 = Some (lat0, lon0) ->
  df s = Some d ->
  has_column "latitude" (columns d) = true ->
  has_column "longitude" (columns d) = true ->
  let cols := add_column "distance_miles" (columns d) in
  search_atms_by_radius api sort_values z radius s =
    (Frame cols
       (map rounded
          (sort_values (map (measured lat0 lon0)
                          (List.filter (within lat0 lon0 radius) (rows d))))),
     set_df (Some (Frame cols (map (measured lat0 lon0) (rows d))))
            (get_zip_coordinates api z s).2).
Proof.
  intros Hres Hdf Hlat Hlon cols. unfold search_atms_by_radius.
  destruct (get_same_tables api z s) as (Hdf1 & _).
  destruct (get_zip_coordinates api z s) as [c s1]. cbn in Hres, Hdf1 |- *. subst c.
  rewrite Hdf1, Hdf, (distances_eq _ _ _ _ Hlat Hlon), assign_distances_map.
  cbn [rows columns]. fold cols. f_equal. f_equal. f_equal. f_equal.
  change (fun x => set_distance_miles (row_miles lat0 lon0 x) x) with (measured lat0 lon0).
  rewrite filter_map. f_equal. apply filter_ext. intros x. apply keep_measured.
Qed.

Lemma search_unresolved z radius s :
  (get_zip_coordinates api z s).1 = None ->
  search_atms_by_radius api sort_values z radius s =
    (empty_frame, show (error_no_coordinates z) (get_zip_coordinates api z s).2).
Proof.
  intros Hres. unfold search_atms_by_radius.
  destruct (get_zip_coordinates api z s) as [c s1]. cbn in Hres. subst c. reflexivity.
Qed.

(** The messages a search can show: none, or one of its two errors. *)
Lemma search_events z radius s :
  let out := search_atms_by_radius api sort_values z radius s in
  ui out.2 = ui s \/
  ui out.2 = (ui s ++ [error_no_coordinates z])%list \/
  ui out.2 = (ui s ++ [error_searching])%list.
Proof.
  cbv zeta. unfold search_atms_by_radius.
  destruct (get_same_tables api z s) as (_ & _ & Hui).
  destruct (get_zip_coordinates api z s) as [[[lat lon] |] s1]; cbn in Hui |- *.
  - destruct (df s1) as [d |]; [| right; right; cbn; rewrite Hui; reflexivity].
    destruct (distances _ _ _ _); cbn; rewrite Hui; auto.
  - right; left. rewrite Hui. reflexivity.
Qed.

End WithEnvironment.

Lemma row_miles_measured lat0 lon0 x :
  row_miles lat0 lon0 (measured lat0 lon0 x) = row_miles lat0 lon0 x.
Proof. reflexivity. Qed.

Lemma within_true lat0 lon0 radius x :
  within lat0 lon0 radius x = true ->
  exists lat lon, latitude x = Some lat /\ longitude x = Some lon /\
                  (great_circle 3956 lat0 lon0 lat lon <= radius)%R.
Proof.
  unfold within. destruct (latitude x) as [lat |]; [| discriminate].
  destruct (longitude x) as [lon |]; [| discriminate].
  destruct (Rle_dec _ _); [| discriminate]. intros _. eauto.
Qed.

Lemma distance_leb_refl a : distance_leb a a = true.
Proof. apply distance_leb_le, distance_le_refl. Qed.

Lemma within_at_target lat lon radius i :
  (0 <= radius)%R -> within lat lon radius (located_row i lat lon) = true.
Proof.
  intros Hr. unfold within. cbn. rewrite HaversineFacts.great_circle_refl.
  destruct (Rle_dec 0 radius); [reflexivity | contradiction].
Qed.

(** With the insertion sort of the examples in the place of
    [sort_values] the result is the one the specification words. *)
Lemma search_with_stable_sort (api : nat -> string -> http_result) z radius s lat0 lon0 d :
  (get_zip_coordinates api z s).1 = Some (lat0, lon0) ->
  df s = Some d ->
  has_column "latitude" (columns d) = true ->
  has_column "longitude" (columns d) = true ->
  rows (search_atms_by_radius api stable_sort z radius s).1
  = search_result_spec lat0 lon0 radius (rows d).
Proof.
  intros Hres Hdf Hlat Hlon.
  rewrite (search_resolved api stable_sort z radius s lat0 lon0 d Hres Hdf Hlat Hlon).
  reflexivity.
Qed.

End SearchTheorems.

Module SearchErrors.
Import Haversine PyStr Frame Resolver Search Samples ResolverFacts SearchFacts SearchTheorems.
Local Open Scope string_scope.


(** The claim of C4 fails: [search_atms_by_radius] takes the three-digit
    code "123", looks it up and returns the row found, showing no error. *)
Lemma search_accepts_malformed_zip :
  ((len "123" =? 5)%nat && isdigit "123") = false /\
  let out := search_atms_by_radius (api_at 0 0) stable_sort "123" 10
               (loaded [located_row 0 0 0]) in
  map index (rows out.1) = [0%nat] /\ ui out.2 = [].
Proof.
  split; [reflexivity |]. cbv zeta.
  rewrite (search_resolved (api_at 0 0) stable_sort "123" 10
             (loaded [located_row 0 0 0]) 0 0 (loaded_frame [located_row 0 0 0])
             eq_refl eq_refl eq_refl eq_refl).
  cbn [fst rows loaded_frame List.filter].
  rewrite within_at_target by lra. split; reflexivity.
Qed.

(** C4, amended.  The format of the target code is checked by [main]
    alone: for a code that is typed in and is not exactly five digits, the
    search branch of [main] shows "Please enter a valid 5-digit zip code"
    and does nothing else.  [search_atms_by_radius] has no such check: it
    shows no message, or one of its own two errors. *)
Theorem main_search_rejects_malformed_zip (api : nat -> string -> http_result)
    (sort_values : list row -> list row) z radius s :
  z <> EmptyString ->
  ((len z =? 5)%nat && isdigit z) = false ->
  main_search api sort_values true z radius s = show error_invalid_search_zip s /\
  let out := search_atms_by_radius api sort_values z radius s in
  (ui out.2 = ui s \/
   ui out.2 = (ui s ++ [error_no_coordinates z])%list \/
   ui out.2 = (ui s ++ [error_searching])%list).
Proof.
  intros Hne Hbad. split; [| apply search_events].
  unfold main_search. rewrite Hbad.
  destruct z; [congruence | reflexivity].
Qed.

Lemma main_search_rejects_malformed_zip_witness :
  main_search api_not_found stable_sort true "123" 10 init
  = show error_invalid_search_zip init.
Proof.
  apply (main_search_rejects_malformed_zip api_not_found stable_sort "123" 10 init);
    [discriminate | reflexivity].
Defined.



Section WithEnvironment.

Variable api : nat -> string -> http_result.
Variable sort_values : list row -> list row.

(** What [main] shows in the two cases: the warning "No ATMs found" in
    both, after the error of the search in the first. *)
Lemma main_search_unresolved z radius s :
  ((len z =? 5)%nat && isdigit z) = true ->
  (get_zip_coordinates api z s).1 = None ->
  ui (main_search api sort_values true z radius s)
  = (ui s ++ [error_no_coordinates z; warning_no_atms_found radius z])%list.
Proof.
  intros Hok Hres. unfold main_search. rewrite Hok.
  assert (Hne : is_empty z = false) by (destruct z; [discriminate | reflexivity]).
  rewrite Hne. cbn [negb andb].
  rewrite (search_unresolved api sort_values z radius s Hres).
  destruct (get_same_tables api z s) as (_ & _ & Hui).
  cbn. rewrite Hui, <- app_assoc. reflexivity.
Qed.

Lemma main_search_nothing_found z radius s lat0 lon0 d :
  ((len z =? 5)%nat && isdigit z) = true ->
  (get_zip_coordinates api z s).1 = Some (lat0, lon0) ->
  df s = Some d ->
  has_column "latitude" (columns d) = true ->
  has_column "longitude" (columns d) = true ->
  rows (search_atms_by_radius api sort_values z radius s).1 = [] ->
  ui (main_search api sort_values true z radius s)
  = (ui s ++ [warning_no_atms_found radius z])%list.
Proof.
  intros Hok Hres Hdf Hlat Hlon Hrows. unfold main_search. rewrite Hok.
  assert (Hne : is_empty z = false) by (destruct z; [discriminate | reflexivity]).
  rewrite Hne. cbn [negb andb].
  pose proof (search_events api sort_values z radius s) as Hev. cbv zeta in Hev.
  rewrite (search_resolved api sort_values z radius s lat0 lon0 d Hres Hdf Hlat Hlon)
    in Hrows, Hev |- *.
  cbn [fst rows] in Hrows. cbn [snd] in Hev.
  unfold empty. cbn [columns rows]. rewrite Hrows.
  destruct (add_column "distance_miles" (columns d)); cbn [negb];
    destruct (get_same_tables api z s) as (_ & _ & Hui); cbn; rewrite Hui; reflexivity.
Qed.

End WithEnvironment.

End SearchErrors.

Module ZipLaws.
Import PyStr Zip Frame Loader Notions PyStrFacts ZipFacts ZipTheorems LoaderFacts LoadedFacts.
Local Open Scope nat_scope.
Local Open Scope string_scope.

Lemma isdigit_not_space c : isdigit_char c = true -> isspace_char c = false.
Proof. by_cases c. Qed.

Lemma isdigit_lower c : isdigit_char c = true -> lower_char c = c.
Proof. by_cases c. Qed.

Lemma isdigit_not_hyphen c : isdigit_char c = true -> Ascii.eqb hyphen c = false.
Proof. by_cases c. Qed.

Lemma isdigit_not_n c : isdigit_char c = true -> Ascii.eqb c "n"%char = false.
Proof. by_cases c. Qed.

Lemma lower_digits s : forallb_str isdigit_char s = true -> lower s = s.
Proof.
  induction s as [| c s IH]; simpl; [reflexivity |].
  intros H. apply andb_true_iff in H as [Hc Hs].
  rewrite (isdigit_lower _ Hc), (IH Hs). reflexivity.
Qed.

Lemma strip_digits s : forallb_str isdigit_char s = true -> strip s = s.
Proof.
  intros H. unfold strip.
  assert (Hl : lstrip s = s).
  { destruct s as [| c s]; [reflexivity |]. simpl in *.
    apply andb_true_iff in H as [Hc _]. rewrite (isdigit_not_space _ Hc). reflexivity. }
  rewrite Hl. clear Hl. induction s as [| c s IH]; simpl; [reflexivity |].
  simpl in H. apply andb_true_iff in H as [Hc Hs].
  rewrite (isdigit_not_space _ Hc), (IH Hs). reflexivity.
Qed.

Lemma no_hyphen_digits s : forallb_str isdigit_char s = true -> contains hyphen s = false.
Proof.
  unfold contains. induction s as [| c s IH]; [reflexivity |]. cbn [forallb_str existsb_str].
  intros H. apply andb_true_iff in H as [Hc Hs].
  rewrite (isdigit_not_hyphen _ Hc), (IH Hs). reflexivity.
Qed.

(** A canonical code is returned as it is. *)
Lemma clean_zip_canonical_id z :
  len z = 5 -> isdigit z = true -> clean_zip (Some z) = Some z.
Proof.
  intros Hl Hd. unfold isdigit in Hd. apply andb_true_iff in Hd as [Hne Hall].
  unfold clean_zip. cbv zeta.
  rewrite (lower_digits _ Hall), !(strip_digits _ Hall), (no_hyphen_digits _ Hall).
  assert (Hm : str_in z ["nan"; "none"; EmptyString] = false).
  { destruct z as [| c z]; [discriminate |]. cbn [forallb_str] in Hall.
    apply andb_true_iff in Hall as [Hc _]. unfold str_in. cbn.
    rewrite (isdigit_not_n _ Hc). reflexivity. }
  rewrite Hm. unfold isdigit. rewrite Hne, Hall. cbn [andb]. rewrite Hl. cbn [Nat.leb].
  rewrite (zfill_digits _ _ Hall), Hl. reflexivity.
Qed.

(** X1.  Whatever cell [clean_zip] is given, a value it returns has
    exactly five characters, all of them digits; so the two further tests
    of [valid_mask] never reject a row [clean_zip] accepted. *)
Theorem clean_zip_returns_five_digits (v : option string) (z : string) :
  clean_zip v = Some z ->
  len z = 5 /\ isdigit z = true /\ valid_mask (clean_zip v) = true.
Proof.
  intros H. pose proof (clean_zip_valid v z H) as Hv.
  destruct (valid_mask_true _ Hv) as (z' & Hz & Hl & Hd).
  injection Hz as <-. rewrite H. auto.
Qed.

Lemma clean_zip_returns_five_digits_witness :
  clean_zip (Some " 7-11 ") = Some "00007" /\
  len "00007" = 5 /\ isdigit "00007" = true.
Proof.
  split; [reflexivity |].
  destruct (clean_zip_returns_five_digits (Some " 7-11 ") "00007" eq_refl) as (Hl & Hd & _).
  split; assumption.
Defined.

(** X2.  [clean_zip] is idempotent: a value it returned is returned
    unchanged when cleaned again. *)
Theorem clean_zip_idempotent (v : option string) (z : string) :
  clean_zip v = Some z -> clean_zip (Some z) = Some z.
Proof.
  intros H. pose proof (clean_zip_valid v z H) as Hv.
  destruct (valid_mask_true _ Hv) as (z' & Hz & Hl & Hd).
  injection Hz as <-. apply clean_zip_canonical_id; assumption.
Qed.

Lemma clean_zip_idempotent_witness :
  clean_zip (Some "123456789") = Some "12345" /\ clean_zip (Some "12345") = Some "12345".
Proof.
  split; [reflexivity |].
  exact (clean_zip_idempotent (Some "123456789") "12345" eq_refl).
Defined.

(** X3.  On a value the stripping pass has left, [clean_zip] reads only
    what precedes the first hyphen: digits followed by a hyphen and any
    suffix are cleaned as the digits alone. *)
Theorem clean_zip_ignores_suffix (a b : string) :
  forallb_str re_digit a = true -> forallb_str kept b = true ->
  clean_zip (Some (a ++ String hyphen b)) = clean_zip (Some a).
Proof.
  intros Ha Hb.
  rewrite (clean_zip_kept (a ++ String hyphen b)).
  - rewrite (clean_zip_kept a (digits_kept _ Ha)). cbv zeta.
    rewrite (split_head_append_hyphen _ _ Ha).
    rewrite (split_head_no_hyphen _ (contains_digits _ Ha)). reflexivity.
  - rewrite forallb_str_append, (digits_kept _ Ha). cbn [forallb_str andb]. exact Hb.
Qed.

Lemma clean_zip_ignores_suffix_witness :
  clean_zip (Some "123-45678") = Some "00123".
Proof.
  exact (eq_trans (clean_zip_ignores_suffix "123" "45678" eq_refl eq_refl) eq_refl).
Defined.

Lemma is_empty_strip_pass raw :
  len (filter_str re_digit raw) = 0 ->
  is_empty (strip_pass raw) = negb (contains hyphen raw) /\
  existsb_str isdigit_char (strip_pass raw) = false.
Proof.
  intros H0.
  assert (Hnd : existsb_str isdigit_char (strip_pass raw) = false).
  { rewrite exists_filter_len, digits_strip_pass, H0. reflexivity. }
  split; [| exact Hnd].
  unfold contains, strip_pass in *. induction raw as [| c raw IH]; [reflexivity |].
  cbn [filter_str existsb_str] in *.
  destruct (re_digit c) eqn:Hd; [discriminate |].
  unfold kept in *. rewrite Hd in *. cbn [orb] in *. rewrite eqb_hyphen_sym.
  destruct (Ascii.eqb c hyphen); [reflexivity |].
  cbn [orb]. apply IH; assumption.
Qed.

(** X4.  The diagnosis a row gets depends on its raw value through the
    number of its digits alone and, when it has none, on whether it contains
    a hyphen: no digit gives "Missing/Empty zip code" or, with a hyphen, "No
    digits in zip code"; one to four digits "Too few digits"; six to eight
    "Unusual zip length"; ten or more "Too many digits"; five or nine "Other
    zip format issue".  The answer "Empty zip code" is never given. *)
Theorem diagnosis_by_digit_count (x : row) (raw : string) :
  working_zip x = Some raw ->
  zip_issue (diagnosed (processed x))
    = Some (issue_by_digits (len (filter_str re_digit raw)) (contains hyphen raw)) /\
  zip_issue (diagnosed (processed x)) <> Some "Empty zip code".
Proof.
  intros Hw. destruct (working_zip_processed x raw Hw) as [Hwp Hcp].
  assert (Heq : zip_issue (diagnosed (processed x))
    = Some (issue_by_digits (len (filter_str re_digit raw)) (contains hyphen raw))).
  { unfold diagnosed. cbn [zip_issue set_zip_issue]. rewrite Hwp. f_equal.
    rewrite (diagnose_kept _ _ (strip_pass_kept raw)). cbv zeta.
    rewrite digits_strip_pass. unfold issue_by_digits.
    set (n := len (filter_str re_digit raw)).
    destruct (Nat.eqb_spec n 0) as [H0 | Hn0].
    - destruct (is_empty_strip_pass raw H0) as [He Hnd]. rewrite He, Hnd.
      destruct (contains hyphen raw); reflexivity.
    - assert (Hex : existsb_str isdigit_char (strip_pass raw) = true).
      { rewrite exists_filter_len, digits_strip_pass. fold n.
        destruct (Nat.eqb_spec n 0); [lia | reflexivity]. }
      assert (Hne : is_empty (strip_pass raw) = false).
      { destruct (strip_pass raw); [discriminate | reflexivity]. }
      rewrite Hne, Hex. cbn [negb].
      destruct (n <? 5)%nat; [reflexivity |]. destruct (9 <? n)%nat; [reflexivity |].
      assert (Hin : existsb (Nat.eqb n) [6; 7; 8] = (6 <=? n)%nat && (n <=? 8)%nat).
      { cbn [existsb]. destruct (Nat.eqb_spec n 6), (Nat.eqb_spec n 7), (Nat.eqb_spec n 8),
          (Nat.leb_spec 6 n), (Nat.leb_spec n 8); cbn; try reflexivity; lia. }
      rewrite Hin. reflexivity. }
  split; [exact Heq |]. rewrite Heq. intros [= H]. revert H. unfold issue_by_digits.
  destruct (_ =? _)%nat; [destruct (contains hyphen raw); discriminate |].
  destruct (_ <? _)%nat; [discriminate |]. destruct (_ <? _)%nat; [discriminate |].
  destruct (_ && _); discriminate.
Qed.

Lemma diagnosis_by_digit_count_witness :
  zip_issue (diagnosed (processed (Samples.working_row 0 "N/A-12")))
  = Some "Too few digits (2 digits)".
Proof.
  exact (proj1 (diagnosis_by_digit_count (Samples.working_row 0 "N/A-12") "N/A-12" eq_refl)).
Defined.

End ZipLaws.

Module PartitionLaws.
Import PyStr Zip Frame Resolver Loader Notions Samples.
Import PyStrFacts ZipFacts LoaderFacts LoadedFacts ResolverFacts SearchFacts.
Local Open Scope nat_scope.
Local Open Scope string_scope.

Lemma filter_split {A} (f : A -> bool) (l : list A) :
  length (List.filter f l) + length (List.filter (fun x => negb (f x)) l) = length l.
Proof.
  induction l as [| x l IH]; [reflexivity |]. cbn [List.filter].
  destruct (f x); cbn [negb length]; lia.
Qed.

(** X5.  [process_zip_codes] loses no row and invents none: the accepted
    rows stay in [df], in their order, each with its cleaned code as [zip];
    the rejected rows, in their order, become [invalid_zips_df] and their
    number is the one the warning shows.  When no row is rejected,
    [invalid_zips_df] is left as it was, rows of an earlier load included. *)
Theorem process_zip_codes_partition (zip_source : string) (s : state) (d : frame) :
  df s = Some d ->
  let rejected := List.filter (fun x => negb (accepted x)) (rows d) in
  exists s' d',
    process_zip_codes zip_source s = Some s' /\ df s' = Some d' /\
    rows d' = map kept_row (List.filter accepted (rows d)) /\
    length (rows d') + length rejected = length (rows d) /\
    match rejected with
    | [] =>
        invalid_zips_df s' = invalid_zips_df s /\
        ui s' = (ui s ++ [success_all_zips_valid])%list
    | _ :: _ =>
        (exists invalid, invalid_zips_df s' = Some invalid /\
                         rows invalid = map processed rejected) /\
        ui s' = (ui s ++ [warning_invalid_zip_records (length rejected)])%list
    end.
Proof.
  intros Hd rejected. unfold process_zip_codes. rewrite Hd. cbv zeta.
  rewrite passes_processed. cbn [rows].
  rewrite !filter_map.
  change (fun x => valid_mask (cleaned_zip (processed x))) with accepted.
  change (fun x => negb (valid_mask (cleaned_zip (processed x))))
    with (fun x => negb (accepted x)).
  fold rejected. eexists _, (Frame _ _). split; [reflexivity |].
  rewrite !length_map.
  assert (Hs : length (map kept_row (List.filter accepted (rows d))) + length rejected
               = length (rows d))
    by (rewrite length_map; apply filter_split).
  clearbody rejected.
  destruct rejected as [| r rest]; cbn [length Nat.ltb Nat.leb];
    (split; [reflexivity |]); cbn [rows]; rewrite map_map;
    (split; [reflexivity |]); (split; [exact Hs |]).
  - split; reflexivity.
  - split; [eexists; split; reflexivity | reflexivity].
Qed.

Lemma process_zip_codes_partition_witness :
  exists s' d',
    process_zip_codes "zip"
      (pending [working_row 0 "02134"; working_row 1 "abc"; working_row 2 "501"]) = Some s' /\
    df s' = Some d' /\
    map index (rows d') = [0; 2] /\
    ui s' = [warning_invalid_zip_records 1].
Proof.
  destruct (process_zip_codes_partition "zip"
              (pending [working_row 0 "02134"; working_row 1 "abc"; working_row 2 "501"])
              (pending_frame [working_row 0 "02134"; working_row 1 "abc"; working_row 2 "501"])
              eq_refl) as (s' & d' & Hp & Hd & Hrows & _ & _ & Hui).
  exists s', d'. split; [exact Hp |]. split; [exact Hd |].
  split; [rewrite Hrows; reflexivity | exact Hui].
Defined.

(** ** [unique] *)

Lemma in_unique z l : In z (unique l) <-> In z l.
Proof.
  induction l as [| x l IH]; [reflexivity |]. cbn [unique]. split.
  - intros [-> | H]; [left; reflexivity |].
    apply filter_In in H as [H _]. right. apply IH, H.
  - intros [-> | H]; [left; reflexivity |].
    destruct (String.eqb_spec x z) as [-> | Hne]; [left; reflexivity |].
    right. apply filter_In. split; [apply IH, H |].
    destruct (String.eqb_spec x z); [contradiction | reflexivity].
Qed.

Lemma nodup_unique l : List.NoDup (unique l).
Proof.
  induction l as [| x l IH]; cbn [unique]; constructor.
  - intros H. apply filter_In in H as [_ H]. rewrite String.eqb_refl in H. discriminate.
  - apply List.NoDup_filter, IH.
Qed.

Section WithService.

Variable api : nat -> string -> http_result.

(** ** The loop of [add_coordinates] *)

Lemma resolve_unique_lookup zips zc failed s :
  let out := resolve_unique api zips zc failed s in
  zip_coords_cache s ⊆ zip_coords_cache out.2 /\
  (forall z, In z zips ->
     is_Some (out.1.1 !! z) /\ out.1.1 !! z = zip_coords_cache out.2 !! z) /\
  (forall z, ~ In z zips -> out.1.1 !! z = zc !! z).
Proof.
  revert zc failed s. induction zips as [| z zips IH]; intros zc failed s; cbv zeta.
  - cbn. split; [reflexivity |]. split; [intros z [] | reflexivity].
  - cbn [resolve_unique].
    pose proof (get_stores api z s) as Hst. pose proof (get_extends api z s) as Hex.
    destruct (get_zip_coordinates api z s) as [c s1]. cbn [fst snd] in Hst, Hex.
    set (failed1 := match c with None => _ | Some _ => _ end).
    specialize (IH (<[z := c]> zc) failed1 s1). cbv zeta in IH.
    destruct IH as (Hsub & Hin & Hout).
    split; [etransitivity; eassumption |]. split.
    + intros z' [<- | Hz']; [| apply Hin, Hz'].
      destruct (in_dec string_dec z zips) as [Hz | Hz]; [apply Hin, Hz |].
      rewrite (Hout z Hz), lookup_insert_eq.
      split; [eexists; reflexivity |].
      symmetry. eapply lookup_weaken; eassumption.
    + intros z' Hz'. rewrite Hout by (intros H; apply Hz'; right; exact H).
      apply lookup_insert_ne. intros ->. apply Hz'. left; reflexivity.
Qed.

Lemma resolve_unique_requests zips zc failed s :
  List.NoDup zips ->
  requests (resolve_unique api zips zc failed s).2
  = (requests s ++ List.filter (uncached s) zips)%list.
Proof.
  revert zc failed s. induction zips as [| z zips IH]; intros zc failed s Hnd.
  - cbn. rewrite app_nil_r. reflexivity.
  - inversion Hnd as [| ? ? Hz Hnd']; subst. cbn [resolve_unique List.filter].
    unfold uncached at 1.
    destruct (zip_coords_cache s !! z) as [c |] eqn:Hc.
    + rewrite (get_cached api z s c Hc). apply IH, Hnd'.
    + destruct (get_miss api z s Hc) as [Hreq _].
      assert (Hcache : forall z', z' <> z ->
                zip_coords_cache (get_zip_coordinates api z s).2 !! z'
                = zip_coords_cache s !! z').
      { intros z' Hne. unfold get_zip_coordinates. rewrite Hc.
        destruct (api _ _) as [code [[lat lon] |] |];
          [destruct (code =? 200)%Z | destruct (code =? 200)%Z |];
          cbn; apply lookup_insert_ne; congruence. }
      destruct (get_zip_coordinates api z s) as [c s1]. cbn [snd] in Hreq, Hcache.
      rewrite IH by exact Hnd'. rewrite Hreq, <- app_assoc. cbn [app]. do 2 f_equal.
      apply filter_ext_in. intros z' Hz'. unfold uncached.
      rewrite Hcache; [reflexivity |]. intros ->. contradiction.
Qed.

Lemma resolve_unique_failed zips zc failed s :
  let out := resolve_unique api zips zc failed s in
  out.1.2 = (failed ++ List.filter (cached_absent out.2) zips)%list.
Proof.
  revert zc failed s. induction zips as [| z zips IH]; intros zc failed s; cbv zeta.
  - cbn. rewrite app_nil_r. reflexivity.
  - cbn [resolve_unique List.filter].
    pose proof (get_stores api z s) as Hst.
    destruct (get_zip_coordinates api z s) as [c s1]. cbn [fst snd] in Hst.
    set (failed1 := match c with None => _ | Some _ => _ end).
    set (zc1 := <[z := c]> zc).
    pose proof (resolve_unique_lookup zips zc1 failed1 s1) as (Hsub & _ & _).
    cbv zeta in Hsub.
    assert (Hz : zip_coords_cache (resolve_unique api zips zc1 failed1 s1).2 !! z = Some c)
      by (eapply lookup_weaken; eassumption).
    rewrite IH. fold zc1.
    assert (Hca : cached_absent (resolve_unique api zips zc1 failed1 s1).2 z
                  = match c with None => true | Some _ => false end)
      by (unfold cached_absent; change (option (R * R)) with coords; rewrite Hz;
          destruct c; reflexivity).
    rewrite Hca. unfold failed1.
    destruct c as [p |]; [reflexivity |]. rewrite <- app_assoc. reflexivity.
Qed.

(** X6.  After [add_coordinates] every row carries the coordinates the
    cache holds for its postal code, so rows with the same code have the
    same coordinates; no other cell of a row has changed. *)
Theorem add_coordinates_rows_match_cache (s s' : state) :
  add_coordinates api s = Some s' ->
  exists d d',
    df s = Some d /\ df s' = Some d' /\
    map (fun x => (index x, zip x)) (rows d') = map (fun x => (index x, zip x)) (rows d) /\
    (forall y, In y (rows d') ->
       exists c, zip_coords_cache s' !! zip_key y = Some c /\
                 latitude y = option_map fst c /\ longitude y = option_map snd c) /\
    (forall y y', In y (rows d') -> In y' (rows d') -> zip y = zip y' ->
       latitude y = latitude y' /\ longitude y = longitude y').
Proof.
  unfold add_coordinates. destruct (df s) as [d |]; [| discriminate].
  pose proof (resolve_unique_lookup (unique (map zip_key (rows d))) ∅ [] s) as H.
  cbv zeta in H. destruct H as (_ & Hin & _).
  destruct (resolve_unique _ _ _ _ _) as [[zc failed] s1]. cbn [fst snd] in Hin.
  intros Heq.
  assert (Hcache : zip_coords_cache s' = zip_coords_cache s1)
    by (destruct failed; injection Heq as <-; reflexivity).
  set (get := fun x : row => match zc !! zip_key x with Some c => c | None => None end).
  set (rs := map (fun x => set_longitude (option_map snd (get x)) x)
               (map (fun x => set_latitude (option_map fst (get x)) x) (rows d))).
  assert (Hdf : df s' = Some (Frame (add_column "longitude"
                                       (add_column "latitude" (columns d))) rs))
    by (destruct failed; injection Heq as <-; reflexivity).
  assert (Hrow : forall y, In y rs ->
            exists c, zip_coords_cache s' !! zip_key y = Some c /\
                      latitude y = option_map fst c /\ longitude y = option_map snd c).
  { intros y Hy. unfold rs in Hy. rewrite map_map in Hy.
    apply in_map_iff in Hy as (x & <- & Hx).
    assert (Hk : In (zip_key x) (unique (map zip_key (rows d))))
      by (apply in_unique, in_map, Hx).
    destruct (Hin _ Hk) as [[c Hc] Heqc].
    exists c. rewrite Hcache. split; [| split].
    - change (zip_coords_cache s1 !! zip_key x = Some c). rewrite <- Heqc. exact Hc.
    - cbn. unfold get, coords in *. rewrite Hc. reflexivity.
    - cbn. unfold get, coords, zip_key in *. cbn [zip set_latitude]. rewrite Hc.
      reflexivity. }
  exists d, (Frame (add_column "longitude" (add_column "latitude" (columns d))) rs).
  split; [reflexivity |]. split; [exact Hdf |]. cbn [rows]. split; [| split].
  - unfold rs. rewrite !map_map. apply map_ext. reflexivity.
  - exact Hrow.
  - intros y y' Hy Hy' Hz.
    destruct (Hrow y Hy) as (c & Hc & -> & ->), (Hrow y' Hy') as (c' & Hc' & -> & ->).
    assert (c = c') by (unfold zip_key in *; rewrite Hz in Hc; congruence).
    subst c'. split; reflexivity.
Qed.

(** X7.  [add_coordinates] issues one request for each distinct postal
    code of the table that the cache lacks, in the order of first
    appearance, and none for a code it holds: the number of requests is at
    most the number of distinct codes, whatever the number of rows. *)
Theorem add_coordinates_requests (s s' : state) (d : frame) :
  add_coordinates api s = Some s' -> df s = Some d ->
  requests s'
  = (requests s ++ List.filter (uncached s) (unique (map zip_key (rows d))))%list /\
  length (requests s') <= length (requests s) + length (unique (map zip_key (rows d))).
Proof.
  unfold add_coordinates. intros Heq Hd. rewrite Hd in Heq.
  pose proof (resolve_unique_requests (unique (map zip_key (rows d))) ∅ [] s
                (nodup_unique _)) as Hr.
  destruct (resolve_unique _ _ _ _ _) as [[zc failed] s1]. cbn [snd] in Hr.
  assert (Hreq : requests s' = requests s1)
    by (destruct failed; injection Heq as <-; reflexivity).
  rewrite Hreq, Hr. split; [reflexivity |].
  rewrite length_app. pose proof (filter_split (uncached s) (unique (map zip_key (rows d)))).
  lia.
Qed.

Lemma resolve_unique_same_tables zips zc failed s :
  same_tables s (resolve_unique api zips zc failed s).2.
Proof.
  revert zc failed s. induction zips as [| z zips IH]; intros zc failed s;
    [repeat split |].
  cbn [resolve_unique]. pose proof (get_same_tables api z s) as (H1 & H2 & H3).
  destruct (get_zip_coordinates api z s) as [c s1]. cbn [snd] in H1, H2, H3.
  set (failed1 := match c with None => _ | Some _ => _ end).
  destruct (IH (<[z := c]> zc) failed1 s1) as (I1 & I2 & I3).
  repeat split; congruence.
Qed.

(** X8.  [add_coordinates] warns of the postal codes without
    coordinates exactly when there is one.  The codes concerned are the
    distinct codes of the table for which the cache holds no coordinates,
    in order of first appearance; the warning shows how many they are and
    the first ten of them, followed by an ellipsis when there are more than
    ten.  The last message is "Coordinates added successfully!" in every
    case. *)
Theorem add_coordinates_failed_zips (s s' : state) (d : frame) :
  add_coordinates api s = Some s' -> df s = Some d ->
  let failed := List.filter (cached_absent s') (unique (map zip_key (rows d))) in
  ui s' = (ui s ++ match failed with
                  | [] => []
                  | _ :: _ =>
                      [warning_coordinates_not_found (length failed) (firstn 10 failed)
                         (10 <? length failed)%nat]
                  end ++ [success_coordinates_added])%list.
Proof.
  unfold add_coordinates. intros Heq Hd. rewrite Hd in Heq. cbv zeta.
  pose proof (resolve_unique_failed (unique (map zip_key (rows d))) ∅ [] s) as Hf.
  pose proof (resolve_unique_same_tables (unique (map zip_key (rows d))) ∅ [] s)
    as (_ & _ & Hui).
  cbv zeta in Hf.
  destruct (resolve_unique _ _ _ _ _) as [[zc failed] s1]. cbn [app fst snd] in Hf, Hui.
  subst failed.
  assert (Hc : zip_coords_cache s' = zip_coords_cache s1)
    by (destruct (List.filter _ _); injection Heq as <-; reflexivity).
  assert (Hfilter : List.filter (cached_absent s') (unique (map zip_key (rows d)))
                    = List.filter (cached_absent s1) (unique (map zip_key (rows d)))).
  { apply filter_ext. intros z. unfold cached_absent. rewrite Hc. reflexivity. }
  rewrite Hfilter.
  destruct (List.filter (cached_absent s1) _) as [| z l]; injection Heq as <-;
    cbn; rewrite Hui; [reflexivity |]. rewrite <- app_assoc. reflexivity.
Qed.

End WithService.

Lemma add_coordinates_rows_match_cache_witness :
  let s := Samples.loaded [Samples.unlocated_row 0; Samples.unlocated_row 1] in
  exists s', add_coordinates (Samples.api_at 0 0) s = Some s' /\
    exists d d',
      df s = Some d /\ df s' = Some d' /\
      map (fun x => (index x, zip x)) (rows d') = map (fun x => (index x, zip x)) (rows d) /\
      (forall y, In y (rows d') ->
         exists c, zip_coords_cache s' !! zip_key y = Some c /\
                   latitude y = option_map fst c /\ longitude y = option_map snd c) /\
      (forall y y', In y (rows d') -> In y' (rows d') -> zip y = zip y' ->
         latitude y = latitude y' /\ longitude y = longitude y').
Proof.
  intros s. eexists. split; [reflexivity |].
  exact (add_coordinates_rows_match_cache (Samples.api_at 0 0) s _ eq_refl).
Defined.

Lemma add_coordinates_requests_witness :
  let s := Samples.loaded [Samples.unlocated_row 0; Samples.unlocated_row 1] in
  exists s', add_coordinates (Samples.api_at 0 0) s = Some s' /\
             requests s' = ["00000"].
Proof.
  intros s. eexists. split; [reflexivity |].
  exact (proj1 (add_coordinates_requests (Samples.api_at 0 0) s _ _ eq_refl eq_refl)).
Defined.

Lemma add_coordinates_failed_zips_witness :
  let codes := ["00001"; "00002"; "00003"; "00004"; "00005"; "00006"; "00007"; "00008";
                "00009"; "00010"; "00011"] in
  let s := Samples.loaded
             (map (fun z => Row 0 None (Some z) (Some z) (Some z) None None None Inf)
                  ("00003" :: codes)) in
  exists s', add_coordinates Samples.api_not_found s = Some s' /\
             ui s' = [warning_coordinates_not_found 11
                        ["00003"; "00001"; "00002"; "00004"; "00005"; "00006"; "00007";
                         "00008"; "00009"; "00010"] true;
                      success_coordinates_added].
Proof.
  intros codes s.
  destruct (add_coordinates Samples.api_not_found s) as [s' |] eqn:Hadd;
    [| vm_compute in Hadd; discriminate].
  exists s'. split; [reflexivity |].
  pose proof (add_coordinates_failed_zips Samples.api_not_found s s' _ Hadd eq_refl) as H.
  vm_compute in Hadd. injection Hadd as <-.
  vm_compute in H. vm_compute. exact H.
Defined.

End PartitionLaws.

Module SearchLaws.
Import Haversine PyStr Frame Resolver Loader Search Samples Notions.
Import HaversineFacts LoadedFacts ResolverFacts SearchFacts SearchTheorems.
Local Open Scope string_scope.

(** ** Rounding *)

Lemma rint_error y : Rabs (IZR (rint y) - y) <= 1 / 2.
Proof.
  unfold rint. cbv zeta.
  pose proof (base_fp y) as [Hf0 Hf1].
  assert (Hy : y = IZR (Int_part y) + frac_part y) by (unfold frac_part; lra).
  set (n := Int_part y) in *. set (f := frac_part y) in *.
  assert (Hn1 : IZR (n + 1) = IZR n + 1) by (rewrite plus_IZR; reflexivity).
  destruct (Rlt_dec f (1 / 2)); [apply Rabs_le; lra |].
  destruct (Rlt_dec (1 / 2) f); [apply Rabs_le; lra |].
  destruct (Z.even n); apply Rabs_le; lra.
Qed.

Lemma rint_IZR n : rint (IZR n) = n.
Proof.
  assert (Hn : Int_part (IZR n) = n).
  { symmetry. apply Int_part_spec. lra. }
  unfold rint. cbv zeta. unfold frac_part. rewrite Hn.
  destruct (Rlt_dec (IZR n - IZR n) (1 / 2)); [reflexivity | lra].
Qed.

Lemma round2_IZR n : round2 (IZR n) = IZR n.
Proof.
  unfold round2. replace (IZR n * 100) with (IZR (n * 100)) by (rewrite mult_IZR; reflexivity).
  rewrite rint_IZR, mult_IZR. lra.
Qed.

Lemma round2_error x : Rabs (round2 x - x) <= 1 / 200.
Proof.
  unfold round2. pose proof (rint_error (x * 100)) as H.
  unfold Rabs in H. apply Rabs_le.
  destruct (Rcase_abs (IZR (rint (x * 100)) - x * 100)); lra.
Qed.

(** ** The loop over the rows *)

Lemma distances_length cols lat0 lon0 rs ds :
  distances cols lat0 lon0 rs = Some ds -> length ds = length rs.
Proof.
  revert ds. induction rs as [| x rs IH]; intros ds; cbn [distances].
  - intros [= <-]. reflexivity.
  - destruct (row_distance cols lat0 lon0 x); [| discriminate].
    destruct (distances cols lat0 lon0 rs) as [ds' |]; [| discriminate].
    intros [= <-]. cbn [length]. f_equal. apply IH. reflexivity.
Qed.

Lemma distances_assign cols lat0 lon0 rs ds0 :
  length ds0 = length rs ->
  distances cols lat0 lon0 (assign_distances rs ds0) = distances cols lat0 lon0 rs.
Proof.
  revert ds0. induction rs as [| x rs IH]; intros [| d ds0] Hl; try discriminate;
    [reflexivity |].
  cbn [assign_distances distances].
  change (row_distance cols lat0 lon0 (set_distance_miles d x))
    with (row_distance cols lat0 lon0 x).
  rewrite IH by (injection Hl as Hl; exact Hl). reflexivity.
Qed.

Lemma has_column_add_ne c c' cols :
  c <> c' -> has_column c (add_column c' cols) = has_column c cols.
Proof.
  intros Hne. unfold add_column. destruct (has_column c' cols); [reflexivity |].
  unfold has_column. rewrite existsb_app. cbn [existsb].
  destruct (String.eqb_spec c c'); [contradiction |]. rewrite !orb_false_r. reflexivity.
Qed.

Lemma add_column_twice c cols : add_column c (add_column c cols) = add_column c cols.
Proof. unfold add_column at 1. rewrite has_column_add. reflexivity. Qed.

Lemma distances_add_column cols lat0 lon0 rs :
  distances (add_column "distance_miles" cols) lat0 lon0 rs = distances cols lat0 lon0 rs.
Proof.
  induction rs as [| x rs IH]; [reflexivity |]. cbn [distances]. rewrite IH.
  unfold row_distance. rewrite !has_column_add_ne by discriminate. reflexivity.
Qed.

Lemma assign_assign rs ds0 ds :
  length ds0 = length rs ->
  assign_distances (assign_distances rs ds0) ds = assign_distances rs ds.
Proof.
  revert ds0 ds. induction rs as [| x rs IH]; intros [| d0 ds0] [| d ds] Hl;
    try discriminate; try reflexivity.
  cbn [assign_distances]. f_equal. apply IH. injection Hl as Hl. exact Hl.
Qed.

Lemma assign_records rs ds :
  length ds = length rs -> map record_of (assign_distances rs ds) = map record_of rs.
Proof.
  revert ds. induction rs as [| x rs IH]; intros [| d ds] Hl; try discriminate;
    [reflexivity |].
  cbn [assign_distances map]. f_equal. apply IH. injection Hl as Hl. exact Hl.
Qed.

(** A row that got a finite distance has both coordinates, and the
    distance is the great-circle distance to the target. *)
Lemma assigned_miles cols lat0 lon0 rs ds y m :
  distances cols lat0 lon0 rs = Some ds ->
  In y (assign_distances rs ds) -> distance_miles y = Miles m ->
  exists lat lon, latitude y = Some lat /\ longitude y = Some lon /\
                  m = great_circle 3956 lat0 lon0 lat lon.
Proof.
  revert ds. induction rs as [| x rs IH]; intros ds; cbn [distances].
  - intros [= <-] [].
  - destruct (row_distance cols lat0 lon0 x) as [d |] eqn:Hd; [| discriminate].
    destruct (distances cols lat0 lon0 rs) as [ds' |]; [| discriminate].
    intros [= <-]. cbn [assign_distances]. intros [<- | Hy] Hm.
    + cbn in Hm. subst d. unfold row_distance in Hd.
      destruct (negb (has_column "latitude" cols)); [discriminate |].
      destruct (latitude x) as [lat |] eqn:Hlat; [| discriminate].
      destruct (negb (has_column "longitude" cols)); [discriminate |].
      destruct (longitude x) as [lon |] eqn:Hlon; [| discriminate].
      rewrite haversine_is_great_circle in Hd. injection Hd as Hd.
      exists lat, lon. cbn. repeat split; [assumption .. | congruence].
    + exact (IH ds' eq_refl Hy Hm).
Qed.

Lemma in_radius_miles radius x :
  in_radius radius x = true -> exists m, distance_miles x = Miles m /\ m <= radius.
Proof.
  unfold in_radius, le_radius. destruct (distance_miles x) as [m |]; [| discriminate].
  destruct (Rle_dec m radius); [| discriminate]. intros _. exists m. split; [reflexivity | assumption].
Qed.

Lemma in_radius_mono r1 r2 x : r1 <= r2 -> in_radius r1 x = true -> in_radius r2 x = true.
Proof.
  intros Hr H. destruct (in_radius_miles _ _ H) as (m & Hm & Hle).
  unfold in_radius, le_radius. rewrite Hm.
  destruct (Rle_dec m r2); [reflexivity | lra].
Qed.

(** ** The search from the coordinates of the target *)

Section WithEnvironment.

Variable api : nat -> string -> http_result.
Variable sort_values : list row -> list row.

Lemma search_unfold z radius s :
  search_atms_by_radius api sort_values z radius s
  = search_with sort_values z (get_zip_coordinates api z s).1 radius
      (get_zip_coordinates api z s).2.
Proof.
  unfold search_atms_by_radius, search_with.
  destruct (get_zip_coordinates api z s) as [[[lat0 lon0] |] s0]; [| reflexivity].
  cbn [fst snd]. destruct (df s0) as [d |]; [| reflexivity].
  destruct (distances _ _ _ _); reflexivity.
Qed.

Lemma search_cached z radius s c :
  zip_coords_cache s !! z = Some c ->
  search_atms_by_radius api sort_values z radius s = search_with sort_values z c radius s.
Proof. intros H. rewrite search_unfold, (get_cached api z s c H). reflexivity. Qed.

(** The search touches the table only. *)
Lemma search_with_rest z c radius s :
  let s' := (search_with sort_values z c radius s).2 in
  invalid_zips_df s' = invalid_zips_df s /\ zip_coords_cache s' = zip_coords_cache s /\
  requests s' = requests s.
Proof.
  unfold search_with. destruct c as [[lat0 lon0] |]; [| repeat split].
  destruct (df s) as [d |]; [| repeat split].
  destruct (distances _ _ _ _); repeat split.
Qed.

Lemma search_with_records z c radius s :
  option_map (fun d => map record_of (rows d)) (df (search_with sort_values z c radius s).2)
  = option_map (fun d => map record_of (rows d)) (df s).
Proof.
  unfold search_with. destruct c as [[lat0 lon0] |]; [| reflexivity].
  destruct (df s) as [d |] eqn:Hd; [| cbn; rewrite Hd; reflexivity].
  destruct (distances _ _ _ _) as [ds |] eqn:Hds; [| cbn; rewrite Hd; reflexivity].
  cbn. rewrite (assign_records _ _ (distances_length _ _ _ _ _ Hds)). reflexivity.
Qed.

(** The result depends on the session through the table only. *)
Lemma search_with_df z c radius s s' :
  df s' = df s ->
  (search_with sort_values z c radius s').1 = (search_with sort_values z c radius s).1.
Proof.
  intros H. unfold search_with. destruct c as [[lat0 lon0] |]; [| reflexivity].
  rewrite H. destruct (df s) as [d |]; [| reflexivity].
  destruct (distances _ _ _ _); reflexivity.
Qed.

(** The table an earlier search has left gives the same result, and the
    same table when the target is the same. *)
Lemma search_with_after z c radius z0 c0 radius0 s :
  let s1 := (search_with sort_values z0 c0 radius0 s).2 in
  (search_with sort_values z c radius s1).1 = (search_with sort_values z c radius s).1 /\
  (c0 = c -> df (search_with sort_values z c radius s1).2 = df s1).
Proof.
  cbv zeta.
  destruct c0 as [[lat1 lon1] |].
  2:{ change (search_with sort_values z0 None radius0 s).2
        with (show (error_no_coordinates z0) s).
      split; [apply search_with_df; reflexivity |]. intros <-. reflexivity. }
  destruct (df s) as [d |] eqn:Hd.
  2:{ assert (Hs1 : (search_with sort_values z0 (Some (lat1, lon1)) radius0 s).2
                    = show error_searching s)
        by (unfold search_with; rewrite Hd; reflexivity).
      rewrite Hs1. split; [apply search_with_df; reflexivity |]. intros <-.
      unfold search_with. cbn [df show]. rewrite Hd. cbn [snd df show].
      rewrite ?Hd. reflexivity. }
  destruct (distances (columns d) lat1 lon1 (rows d)) as [ds0 |] eqn:Hds0.
  2:{ assert (Hs1 : (search_with sort_values z0 (Some (lat1, lon1)) radius0 s).2
                    = show error_searching s)
        by (unfold search_with; rewrite Hd, Hds0; reflexivity).
      rewrite Hs1. split; [apply search_with_df; reflexivity |]. intros <-.
      unfold search_with. cbn [df show]. rewrite Hd, Hds0. cbn [snd df show].
      rewrite ?Hd. reflexivity. }
  assert (Hs1 : (search_with sort_values z0 (Some (lat1, lon1)) radius0 s).2
                = set_df (Some (Frame (add_column "distance_miles" (columns d))
                                      (assign_distances (rows d) ds0))) s)
    by (unfold search_with; rewrite Hd, Hds0; reflexivity).
  rewrite Hs1.
  pose proof (distances_length _ _ _ _ _ Hds0) as Hl0.
  split.
  - unfold search_with. cbn [df set_df columns rows]. rewrite Hd.
    destruct c as [[lat0 lon0] |]; [| reflexivity].
    rewrite distances_add_column, (distances_assign _ _ _ _ _ Hl0).
    destruct (distances (columns d) lat0 lon0 (rows d)) as [ds |]; [| reflexivity].
    cbv zeta. rewrite add_column_twice, (assign_assign _ _ _ Hl0). reflexivity.
  - intros <-. unfold search_with. cbn [df set_df columns rows].
    rewrite distances_add_column, (distances_assign _ _ _ _ _ Hl0), Hds0.
    cbv zeta. cbn [snd df set_df]. rewrite add_column_twice, (assign_assign _ _ _ Hl0).
    reflexivity.
Qed.

Lemma search_with_result z c radius s y :
  (forall l, Permutation l (sort_values l)) ->
  In y (rows (search_with sort_values z c radius s).1) ->
  exists lat0 lon0 d ds x,
    c = Some (lat0, lon0) /\ df s = Some d /\
    distances (columns d) lat0 lon0 (rows d) = Some ds /\
    In x (assign_distances (rows d) ds) /\ in_radius radius x = true /\ y = rounded x.
Proof.
  intros Hperm. unfold search_with. destruct c as [[lat0 lon0] |]; [| intros []].
  destruct (df s) as [d |]; [| intros []].
  destruct (distances _ _ _ _) as [ds |] eqn:Hds; [| intros []].
  cbn [fst rows]. intros Hy. apply in_map_iff in Hy as (x & <- & Hx).
  apply (Permutation_in _ (Permutation_sym (Hperm _))) in Hx.
  apply filter_In in Hx as [Hx Hr].
  exists lat0, lon0, d, ds, x. repeat split; assumption.
Qed.

(** X9.  A search changes no cell of the table but [distance_miles]: the
    rows of [df] are the same records in the same order, the table of
    rejected rows is untouched, and the cache keeps what it held, with an
    entry for no code but the target. *)
Theorem search_keeps_records (z : string) (radius : R) (s : state) :
  let s' := (search_atms_by_radius api sort_values z radius s).2 in
  option_map (fun d => map record_of (rows d)) (df s')
  = option_map (fun d => map record_of (rows d)) (df s) /\
  invalid_zips_df s' = invalid_zips_df s /\
  zip_coords_cache s ⊆ zip_coords_cache s' /\
  (forall z', z' <> z -> zip_coords_cache s' !! z' = zip_coords_cache s !! z').
Proof.
  cbv zeta. rewrite search_unfold.
  pose proof (get_same_tables api z s) as (Hdf & Hinv & _).
  set (g := get_zip_coordinates api z s) in *.
  destruct (search_with_rest z g.1 radius g.2) as (Hi & Hc & _).
  rewrite search_with_records, Hdf, Hi, Hinv, Hc. split; [reflexivity |].
  split; [reflexivity |]. split; [apply get_extends |].
  intros z' Hne. unfold g, get_zip_coordinates.
  destruct (zip_coords_cache s !! z) as [c |]; [reflexivity |].
  destruct (api _ _) as [code [[lat lon] |] |];
    [destruct (code =? 200)%Z | destruct (code =? 200)%Z |];
    cbn; apply lookup_insert_ne; congruence.
Qed.

(** X10.  A larger radius loses no row: every row a search returns is
    returned by the search for the same code with any radius at least as
    large. *)
Theorem search_radius_monotone (z : string) (r1 r2 : R) (s : state) (y : row) :
  sorts_by_distance sort_values -> r1 <= r2 ->
  In y (rows (search_atms_by_radius api sort_values z r1 s).1) ->
  In y (rows (search_atms_by_radius api sort_values z r2 s).1).
Proof.
  intros Hsort Hr. rewrite !search_unfold. intros Hy.
  assert (Hperm : forall l, Permutation l (sort_values l)) by (intros l; apply Hsort).
  destruct (search_with_result _ _ _ _ _ Hperm Hy)
    as (lat0 & lon0 & d & ds & x & Hc & Hd & Hds & Hx & Hin & ->).
  unfold search_with. rewrite Hc, Hd, Hds. cbn [fst rows].
  apply in_map. apply (Permutation_in _ (Hperm _)).
  apply filter_In. split; [exact Hx | exact (in_radius_mono _ _ _ Hr Hin)].
Qed.

(** X11.  Every row a search returns has both coordinates, and its
    [distance_miles] is its great-circle distance to the target rounded to
    two decimals: a number that is not negative, differs from the distance
    by at most 0.005 and, for a radius that is a whole number of miles, does
    not exceed the radius. *)
Theorem search_shows_rounded_distance (z : string) (radius : R) (s : state) (y : row) :
  sorts_by_distance sort_values ->
  In y (rows (search_atms_by_radius api sort_values z radius s).1) ->
  exists lat0 lon0 lat lon,
    (get_zip_coordinates api z s).1 = Some (lat0, lon0) /\
    latitude y = Some lat /\ longitude y = Some lon /\
    let exact := great_circle 3956 lat0 lon0 lat lon in
    distance_miles y = Miles (round2 exact) /\
    exact <= radius /\
    0 <= round2 exact /\
    Rabs (round2 exact - exact) <= 1 / 200 /\
    (forall n : Z, radius = IZR n -> round2 exact <= radius).
Proof.
  intros Hsort. rewrite search_unfold. intros Hy.
  assert (Hperm : forall l, Permutation l (sort_values l)) by (intros l; apply Hsort).
  destruct (search_with_result _ _ _ _ _ Hperm Hy)
    as (lat0 & lon0 & d & ds & x & Hc & Hd & Hds & Hx & Hin & ->).
  destruct (in_radius_miles _ _ Hin) as (m & Hm & Hle).
  destruct (assigned_miles _ _ _ _ _ _ _ Hds Hx Hm) as (lat & lon & Hlat & Hlon & ->).
  exists lat0, lon0, lat, lon. split; [exact Hc |].
  split; [exact Hlat |]. split; [exact Hlon |]. cbv zeta.
  split; [cbn; rewrite Hm; reflexivity |]. split; [exact Hle |].
  split; [| split; [apply round2_error |]].
  - rewrite <- (round2_IZR 0). apply round2_mono.
    apply (great_circle_bounds 3956 lat0 lon0 lat lon). lra.
  - intros n ->. rewrite <- (round2_IZR n). apply round2_mono, Hle.
Qed.

(** X12.  For a target the cache holds, the result of a search is the
    same whatever search was made before it: the distances an earlier
    search wrote into the table have no effect on the next one. *)
Theorem search_ignores_earlier_search (z : string) (radius : R) (z0 : string) (radius0 : R)
    (s : state) (c : coords) :
  zip_coords_cache s !! z = Some c ->
  (search_atms_by_radius api sort_values z radius
     (search_atms_by_radius api sort_values z0 radius0 s).2).1
  = (search_atms_by_radius api sort_values z radius s).1.
Proof.
  intros Hc. rewrite (search_cached z radius s c Hc), (search_unfold z0 radius0 s).
  set (g := get_zip_coordinates api z0 s).
  destruct (search_with_rest z0 g.1 radius0 g.2) as (_ & Hcache & _).
  assert (Hc1 : zip_coords_cache (search_with sort_values z0 g.1 radius0 g.2).2 !! z
                = Some c).
  { rewrite Hcache. eapply lookup_weaken; [exact Hc | apply get_extends]. }
  rewrite (search_cached z radius _ c Hc1).
  rewrite (proj1 (search_with_after z c radius z0 g.1 radius0 g.2)).
  apply search_with_df. apply (get_same_tables api z0 s).
Qed.

(** X13.  Searching again for the same code, with the same or another
    radius, gives the rows a first search with that radius would give,
    issues no request and leaves the table as the first search left it. *)
Theorem search_again (z : string) (radius radius' : R) (s : state) :
  let first := search_atms_by_radius api sort_values z radius s in
  let again := search_atms_by_radius api sort_values z radius' first.2 in
  again.1 = (search_atms_by_radius api sort_values z radius' s).1 /\
  requests again.2 = requests first.2 /\
  df again.2 = df first.2 /\
  (radius' = radius -> again.1 = first.1).
Proof.
  cbv zeta. rewrite !(search_unfold z _ s).
  set (g := get_zip_coordinates api z s).
  destruct (search_with_rest z g.1 radius g.2) as (_ & Hcache & _).
  assert (Hc1 : zip_coords_cache (search_with sort_values z g.1 radius g.2).2 !! z
                = Some g.1)
    by (rewrite Hcache; apply get_stores).
  rewrite (search_cached z radius' _ _ Hc1).
  destruct (search_with_after z g.1 radius' z g.1 radius g.2) as [Hres Hdf].
  destruct (search_with_rest z g.1 radius'
              (search_with sort_values z g.1 radius g.2).2) as (_ & _ & Hreq).
  split; [exact Hres |]. split; [exact Hreq |]. split; [exact (Hdf eq_refl) |].
  intros ->. rewrite Hres. reflexivity.
Qed.

End WithEnvironment.

Lemma search_radius_monotone_witness :
  let s := loaded [located_row 0 0 0; unlocated_row 1] in
  let y := rounded (measured 0 0 (located_row 0 0 0)) in
  In y (rows (search_atms_by_radius (api_at 0 0) stable_sort "10001" 5 s).1) /\
  In y (rows (search_atms_by_radius (api_at 0 0) stable_sort "10001" 10 s).1).
Proof.
  intros s y.
  assert (H5 : In y (rows (search_atms_by_radius (api_at 0 0) stable_sort "10001" 5 s).1)).
  { rewrite (search_with_stable_sort (api_at 0 0) "10001" 5 s 0 0
               (loaded_frame [located_row 0 0 0; unlocated_row 1])
               eq_refl eq_refl eq_refl eq_refl).
    unfold search_result_spec. cbn [rows loaded_frame List.filter].
    rewrite within_at_target by lra. left. reflexivity. }
  split; [exact H5 |].
  apply (search_radius_monotone (api_at 0 0) stable_sort "10001" 5 10 s y
           stable_sort_sorts); [lra | exact H5].
Defined.

Lemma search_shows_rounded_distance_witness :
  let s := loaded [located_row 0 0 0; unlocated_row 1] in
  let y := rounded (measured 0 0 (located_row 0 0 0)) in
  In y (rows (search_atms_by_radius (api_at 0 0) stable_sort "10001" 10 s).1) /\
  exists lat0 lon0 lat lon,
    latitude y = Some lat /\ longitude y = Some lon /\
    distance_miles y = Miles (round2 (great_circle 3956 lat0 lon0 lat lon)) /\
    (round2 (great_circle 3956 lat0 lon0 lat lon) <= 10)%R.
Proof.
  intros s y.
  assert (Hy : In y (rows (search_atms_by_radius (api_at 0 0) stable_sort "10001" 10 s).1)).
  { rewrite (search_with_stable_sort (api_at 0 0) "10001" 10 s 0 0
               (loaded_frame [located_row 0 0 0; unlocated_row 1])
               eq_refl eq_refl eq_refl eq_refl).
    unfold search_result_spec. cbn [rows loaded_frame List.filter].
    rewrite within_at_target by lra. left. reflexivity. }
  split; [exact Hy |].
  destruct (search_shows_rounded_distance (api_at 0 0) stable_sort "10001" 10 s y
              stable_sort_sorts Hy)
    as (lat0 & lon0 & lat & lon & _ & Hlat & Hlon & Hd & _ & _ & _ & Hn).
  exists lat0, lon0, lat, lon. repeat split; try assumption. exact (Hn 10%Z eq_refl).
Defined.

Lemma search_ignores_earlier_search_witness :
  let s := (get_zip_coordinates (api_at 0 0) "10001"
              (loaded [located_row 0 0 0; unlocated_row 1])).2 in
  zip_coords_cache s !! "10001" = Some (Some (0, 0)) /\
  (search_atms_by_radius (api_at 0 0) stable_sort "10001" 10
     (search_atms_by_radius (api_at 0 0) stable_sort "90210" 5 s).2).1
  = (search_atms_by_radius (api_at 0 0) stable_sort "10001" 10 s).1.
Proof.
  intros s.
  assert (Hc : zip_coords_cache s !! "10001" = Some (Some (0, 0)))
    by exact (get_stores (api_at 0 0) "10001"
                (loaded [located_row 0 0 0; unlocated_row 1])).
  split; [exact Hc |].
  exact (search_ignores_earlier_search (api_at 0 0) stable_sort "10001" 10 "90210" 5 s
           (Some (0, 0)) Hc).
Defined.

End SearchLaws.

Module LoadLaws.
Import PyStr Zip Frame Resolver Loader Notions Samples.
Import PyStrFacts ZipFacts LoaderFacts ColumnTheorems LoadedFacts ResolverFacts SearchFacts.
Import PartitionLaws.
Local Open Scope nat_scope.
Local Open Scope string_scope.

Section WithService.

Variable api : nat -> string -> http_result.

(** What [add_coordinates] leaves of the session. *)
Lemma add_coordinates_tables s s' :
  add_coordinates api s = Some s' ->
  exists d rs,
    df s = Some d /\
    df s' = Some (Frame (add_column "longitude" (add_column "latitude" (columns d))) rs) /\
    map (fun x => (index x, zip x)) rs = map (fun x => (index x, zip x)) (rows d) /\
    invalid_zips_df s' = invalid_zips_df s.
Proof.
  unfold add_coordinates. destruct (df s) as [d |]; [| discriminate].
  pose proof (resolve_unique_same_tables api (unique (map zip_key (rows d))) ∅ [] s)
    as (_ & Hinv & _).
  destruct (resolve_unique _ _ _ _ _) as [[zc failed] s1]. cbn [snd] in Hinv.
  intros Heq. exists d. eexists. split; [reflexivity |].
  split; [destruct failed; injection Heq as <-; reflexivity |].
  split; [rewrite !map_map; apply map_ext; reflexivity |].
  destruct failed; injection Heq as <-; exact Hinv.
Qed.

Lemma add_coordinates_returns s d : df s = Some d -> is_Some (add_coordinates api s).
Proof.
  intros Hd. unfold add_coordinates. rewrite Hd.
  destruct (resolve_unique _ _ _ _ _) as [[zc failed] s1]. eexists. reflexivity.
Qed.

(** The steps of [load_excel_file] on a table with the columns it needs. *)
Lemma load_steps f s :
  let cols := rename (normalize_columns (columns f)) in
  let s0 := set_df (Some (Frame (add_column "working_zip" cols)
                                (map (staged cols) (rows f)))) s in
  missing_cols cols = [] ->
  has_column "zip_short" cols || has_column "zip" cols = true ->
  exists zs s1,
    process_zip_codes zs s0 = Some s1 /\
    ((exists d1, df s1 = Some d1 /\
                 has_column "latitude" (columns d1) = true /\
                 has_column "longitude" (columns d1) = true /\
                 load_excel_file api (Some f) s = (true, s1)) \/
     (exists s2, add_coordinates api s1 = Some s2 /\
                 load_excel_file api (Some f) s = (true, s2))).
Proof.
  intros cols s0 Hmiss Hzip. unfold load_excel_file. fold cols. rewrite Hmiss.
  assert (Hcont : forall zs,
            exists s1,
              process_zip_codes zs s0 = Some s1 /\
              ((exists d1, df s1 = Some d1 /\
                           has_column "latitude" (columns d1) = true /\
                           has_column "longitude" (columns d1) = true /\
                           match process_zip_codes zs s0 with
                           | Some s1 =>
                               if negb (has_column "latitude"
                                          match df s1 with
                                          | Some d' => columns d' | None => [] end)
                                  || negb (has_column "longitude"
                                          match df s1 with
                                          | Some d' => columns d' | None => [] end)
                               then match add_coordinates api s1 with
                                    | Some s2 => (true, s2)
                                    | None => (false, show error_loading_file s1)
                                    end
                               else (true, s1)
                           | None => (false, show error_loading_file s0)
                           end = (true, s1)) \/
               (exists s2, add_coordinates api s1 = Some s2 /\
                           match process_zip_codes zs s0 with
                           | Some s1 =>
                               if negb (has_column "latitude"
                                          match df s1 with
                                          | Some d' => columns d' | None => [] end)
                                  || negb (has_column "longitude"
                                          match df s1 with
                                          | Some d' => columns d' | None => [] end)
                               then match add_coordinates api s1 with
                                    | Some s2 => (true, s2)
                                    | None => (false, show error_loading_file s1)
                                    end
                               else (true, s1)
                           | None => (false, show error_loading_file s0)
                           end = (true, s2)))).
  { intros zs.
    destruct (process_zip_codes_spec zs s0 _ eq_refl) as (s1 & Hp & Hdf & _).
    exists s1. split; [exact Hp |]. rewrite Hp, Hdf. cbn [columns].
    destruct (negb _ || negb _) eqn:Hc.
    - right. destruct (add_coordinates_returns s1 _ Hdf) as [s2 Hs2].
      exists s2. rewrite Hs2. split; reflexivity.
    - left. apply orb_false_iff in Hc as [Hlat Hlon].
      apply negb_false_iff in Hlat, Hlon. eexists. split; [reflexivity |].
      cbn [columns]. repeat split; assumption. }
  unfold s0, staged, postal_source in *.
  destruct (has_column "zip_short" cols) eqn:Hs.
  - exists "zip_short". apply Hcont.
  - cbn [orb] in Hzip. rewrite Hzip. exists "zip". apply Hcont.
Qed.

(** A load that succeeds went through these steps. *)
Lemma load_true f s s' :
  load_excel_file api (Some f) s = (true, s') ->
  let cols := rename (normalize_columns (columns f)) in
  missing_cols cols = [] /\ has_column "zip_short" cols || has_column "zip" cols = true.
Proof.
  intros H cols. pose proof (load_outcomes api f s) as Ho. cbv zeta in Ho. fold cols in Ho.
  destruct (missing_cols cols) as [| m l]; [| rewrite Ho in H; discriminate].
  split; [reflexivity |].
  destruct (has_column "zip_short" cols || has_column "zip" cols); [reflexivity |].
  rewrite Ho in H. discriminate.
Qed.

(** The two tables a successful load leaves. *)
Lemma load_tables f s s' :
  load_excel_file api (Some f) s = (true, s') ->
  let cols := rename (normalize_columns (columns f)) in
  let rs := map (staged cols) (rows f) in
  exists d',
    df s' = Some d' /\
    (forall c, In c ["latitude"; "longitude"; "zip"; "state"] ->
               has_column c (columns d') = true) /\
    map (fun x => (index x, zip x)) (rows d')
    = map (fun x => (index x, cleaned_zip (processed x))) (List.filter accepted rs) /\
    invalid_zips_df s' =
      match List.filter (fun x => negb (accepted x)) rs with
      | [] => invalid_zips_df s
      | (_ :: _) as rejected =>
          Some (Frame (add_column "cleaned_zip" (add_column "working_zip" cols))
                      (map processed rejected))
      end.
Proof.
  intros Hload cols rs. destruct (load_true f s s' Hload) as [Hmiss Hzip]. fold cols in Hmiss, Hzip.
  destruct (load_steps f s Hmiss Hzip) as (zs & s1 & Hp & Hrest). fold cols in Hp. fold rs in Hp.
  destruct (process_zip_codes_spec zs
              (set_df (Some (Frame (add_column "working_zip" cols) rs)) s) _ eq_refl)
    as (s1' & Hp' & Hdf1 & Hinv1 & _).
  rewrite Hp in Hp'. injection Hp' as <-. cbn [rows columns invalid_zips_df set_df] in Hdf1, Hinv1.
  rewrite !filter_map in Hinv1. rewrite filter_map in Hdf1.
  change (fun x => valid_mask (cleaned_zip (processed x))) with accepted in Hdf1.
  change (fun x => negb (valid_mask (cleaned_zip (processed x))))
    with (fun x => negb (accepted x)) in Hinv1.
  assert (Hstate : has_column "state" cols = true)
    by (apply (proj1 (missing_cols_nil cols) Hmiss); cbn; tauto).
  assert (Hcols1 : forall c, In c ["zip"; "state"] ->
            has_column c (add_column "zip" (add_column "cleaned_zip"
                                             (add_column "working_zip" cols))) = true).
  { intros c [<- | [<- | []]]; [apply has_column_add |].
    do 3 apply has_column_add_other. exact Hstate. }
  assert (Hinv : invalid_zips_df s1 =
                 match List.filter (fun x => negb (accepted x)) rs with
                 | [] => invalid_zips_df s
                 | (_ :: _) as rejected =>
                     Some (Frame (add_column "cleaned_zip" (add_column "working_zip" cols))
                                 (map processed rejected))
                 end).
  { rewrite Hinv1. destruct (List.filter (fun x => negb (accepted x)) rs); reflexivity. }
  destruct Hrest as [(d1 & Hd1 & Hlat & Hlon & Hl) | (s2 & Ha & Hl)];
    rewrite Hl in Hload; injection Hload as <-.
  - exists d1. split; [exact Hd1 |]. rewrite Hd1 in Hdf1. injection Hdf1 as ->.
    cbn [columns rows] in *. split; [| split; [| exact Hinv]].
    + intros c [<- | [<- | Hc]]; [exact Hlat | exact Hlon | apply Hcols1, Hc].
    + rewrite !map_map. apply map_ext. reflexivity.
  - destruct (add_coordinates_tables _ _ Ha) as (d1 & rs2 & Hd1 & Hd2 & Hrows & Hinv2).
    rewrite Hd1 in Hdf1. injection Hdf1 as ->. cbn [columns rows] in *.
    eexists. split; [exact Hd2 |]. cbn [columns rows]. split; [| split].
    + intros c [<- | [<- | Hc]];
        [apply has_column_add_other, has_column_add | apply has_column_add |].
      do 2 apply has_column_add_other. apply Hcols1, Hc.
    + rewrite Hrows, !map_map. apply map_ext. reflexivity.
    + rewrite Hinv2. exact Hinv.
Qed.

(** X14.  A table whose headers, once normalized, are distinct and
    include the five required ones and a postal column always loads.  The
    table kept has the rows whose postal cell is accepted, in the order of
    the file, each with its five-digit code as [zip]; a file with no
    accepted row loads as a table without rows. *)
Theorem load_keeps_accepted_rows (f : frame) (s : state) :
  let cols := rename (normalize_columns (columns f)) in
  let rs := map (staged cols) (rows f) in
  List.NoDup cols ->
  missing_cols cols = [] ->
  has_column "zip_short" cols || has_column "zip" cols = true ->
  exists s' d',
    load_excel_file api (Some f) s = (true, s') /\ df s' = Some d' /\
    map (fun x => (index x, zip x)) (rows d')
    = map (fun x => (index x, cleaned_zip (processed x))) (List.filter accepted rs) /\
    Forall canonical (rows d') /\
    ((forall x, In x rs -> accepted x = false) -> rows d' = []).
Proof.
  intros cols rs _ Hmiss Hzip.
  destruct (load_steps f s Hmiss Hzip) as (zs & s1 & _ & Hrest).
  assert (Hload : exists s', load_excel_file api (Some f) s = (true, s')).
  { destruct Hrest as [(d1 & _ & _ & _ & Hl) | (s2 & _ & Hl)]; eexists; exact Hl. }
  destruct Hload as [s' Hload].
  destruct (load_tables f s s' Hload) as (d' & Hd' & _ & Hrows & _).
  fold cols in Hrows. fold rs in Hrows.
  destruct (load_success api _ _ _ Hload) as (d2 & Hd2 & _ & _ & Hcan).
  rewrite Hd' in Hd2. injection Hd2 as <-.
  exists s', d'. repeat split; try assumption.
  intros Hall.
  assert (Hnil : List.filter accepted rs = []).
  { destruct (List.filter accepted rs) as [| x l] eqn:Hf; [reflexivity |].
    assert (Hx : In x (List.filter accepted rs)) by (rewrite Hf; left; reflexivity).
    apply filter_In in Hx as [Hx Hacc]. rewrite (Hall x Hx) in Hacc. discriminate. }
  rewrite Hnil in Hrows. destruct (rows d'); [reflexivity | discriminate].
Qed.

(** X15.  The table of rejected rows is replaced only by a load that
    rejects a row.  After a successful load of a file with no rejected row
    [invalid_zips_df] is what it was before the load, so the rejected rows
    of an earlier file stay in the session and are what
    [export_invalid_zips] writes. *)
Theorem load_keeps_earlier_rejects (f : frame) (s s' : state) :
  let cols := rename (normalize_columns (columns f)) in
  load_excel_file api (Some f) s = (true, s') ->
  (forall x, In x (rows f) -> accepted (staged cols x) = true) ->
  invalid_zips_df s' = invalid_zips_df s /\
  export_invalid_zips s' = export_invalid_zips s.
Proof.
  intros cols Hload Hall.
  destruct (load_tables f s s' Hload) as (d' & _ & _ & _ & Hinv). fold cols in Hinv.
  assert (Hnil : List.filter (fun x => negb (accepted x)) (map (staged cols) (rows f)) = []).
  { destruct (List.filter _ _) as [| x l] eqn:Hf; [reflexivity |].
    assert (Hx : In x (List.filter (fun x => negb (accepted x)) (map (staged cols) (rows f))))
      by (rewrite Hf; left; reflexivity).
    apply filter_In in Hx as [Hx Hacc]. apply in_map_iff in Hx as (x0 & <- & Hx0).
    rewrite (Hall x0 Hx0) in Hacc. discriminate. }
  rewrite Hnil in Hinv. split; [exact Hinv |].
  unfold export_invalid_zips. rewrite Hinv. reflexivity.
Qed.

End WithService.

Lemma load_keeps_accepted_rows_witness :
  let f := Frame headers [postal_row 0 "abc"; postal_row 1 "123456"] in
  exists s' d',
    load_excel_file api_not_found (Some f) init = (true, s') /\ df s' = Some d' /\
    rows d' = [].
Proof.
  intros f.
  assert (Hnd : List.NoDup (rename (normalize_columns (columns f))))
    by (repeat constructor; cbn; intuition discriminate).
  destruct (load_keeps_accepted_rows api_not_found f init Hnd eq_refl eq_refl)
    as (s' & d' & Hload & Hd & _ & _ & Hnil).
  exists s', d'. split; [exact Hload |]. split; [exact Hd |].
  apply Hnil. intros x [<- | [<- | []]]; reflexivity.
Defined.

Lemma load_keeps_earlier_rejects_witness :
  let earlier := Some (Frame headers [postal_row 7 "abc"]) in
  let s := State None earlier ∅ [] [] in
  let f := Frame headers [postal_row 0 "10001"] in
  invalid_zips_df (load_excel_file api_not_found (Some f) s).2 = earlier.
Proof.
  intros earlier s f.
  assert (Hload : load_excel_file api_not_found (Some f) s
                  = (true, (load_excel_file api_not_found (Some f) s).2))
    by (vm_compute; reflexivity).
  refine (proj1 (load_keeps_earlier_rejects api_not_found f s _ Hload _)).
  intros x [<- | []]. reflexivity.
Defined.

End LoadLaws.

Module PageLaws.
Import PyStr Zip Frame Resolver Loader Search Notions Samples App.
Import LoaderFacts ColumnTheorems LoadedFacts ResolverFacts SearchFacts SearchTheorems.
Import PartitionLaws SearchLaws LoadLaws.
Local Open Scope string_scope.

(** ** The coverage shown *)

Lemma dropna_length rs : (length (dropna rs) <= length rs)%nat.
Proof. unfold dropna. apply filter_length_le. Qed.

Lemma dropna_all rs :
  length (dropna rs) = length rs <-> forallb has_coordinates rs = true.
Proof.
  unfold dropna. induction rs as [| x rs IH]; [split; reflexivity |].
  cbn [List.filter forallb]. destruct (has_coordinates x); cbn [length andb].
  - rewrite <- IH. split; [intros [= H]; exact H | intros ->; reflexivity].
  - pose proof (filter_length_le has_coordinates rs).
    split; [intros H'; lia | discriminate].
Qed.

(** X16.  The coordinate coverage [main] shows is a percentage between 0
    and 100; it is 100 exactly when every row of the table has both
    coordinates. *)
Theorem coord_percentage_bounds (d : frame) (percentage : R) :
  coord_percentage d = Some percentage ->
  0 <= percentage <= 100 /\
  (percentage = 100 <-> forallb has_coordinates (rows d) = true).
Proof.
  unfold coord_percentage. destruct (negb _ || negb _); [discriminate |].
  destruct (length (rows d)) as [| n] eqn:Hlen; [discriminate |]. intros [= <-].
  pose proof (dropna_length (rows d)) as Hle. rewrite Hlen in Hle.
  pose proof (dropna_all (rows d)) as Hall. rewrite Hlen in Hall.
  assert (Hn : 0 < INR (S n)) by (apply lt_0_INR; apply Nat.lt_0_succ).
  assert (Hk : 0 <= INR (length (dropna (rows d)))) by apply pos_INR.
  assert (Hkn : INR (length (dropna (rows d))) <= INR (S n)) by (apply le_INR, Hle).
  change (match n with O => 1 | S _ => INR n + 1 end) with (INR (S n)).
  set (k := INR (length (dropna (rows d)))) in *. set (m := INR (S n)) in *.
  assert (Hdiv : 0 <= k / m <= 1).
  { split.
    - apply Rmult_le_pos; [exact Hk | left; apply Rinv_0_lt_compat, Hn].
    - apply (Rmult_le_reg_r m); [exact Hn |]. unfold Rdiv.
      rewrite Rmult_assoc, Rinv_l by lra. lra. }
  split; [destruct Hdiv; split; nra |]. rewrite <- Hall. split.
  - intros H. assert (Hq : k / m = 1) by nra.
    assert (Hkm : k = m).
    { apply (Rmult_eq_compat_r m) in Hq. unfold Rdiv in Hq.
      rewrite Rmult_assoc, Rinv_l in Hq by lra. lra. }
    apply INR_eq. exact Hkm.
  - intros H. unfold k, m. rewrite H. unfold Rdiv. rewrite Rinv_r by (fold m; lra). lra.
Qed.

Lemma coord_percentage_bounds_witness :
  exists percentage,
    coord_percentage (loaded_frame [located_row 0 0 0]) = Some percentage /\
    0 <= percentage <= 100.
Proof.
  eexists. split; [reflexivity |].
  exact (proj1 (coord_percentage_bounds (loaded_frame [located_row 0 0 0]) _ eq_refl)).
Defined.

Section WithEnvironment.

Variable api : nat -> string -> http_result.
Variable sort_values : list row -> list row.

(** ** The tool inside the page *)

Lemma search_branch_tool i a :
  search_tool (search_branch api sort_values i a)
  = main_search api sort_values (search_button i) (search_zip i) (radius_miles i)
      (search_tool a) /\
  data_loaded (search_branch api sort_values i a) = data_loaded a.
Proof.
  unfold search_branch, main_search. destruct (_ && _); [| split; reflexivity].
  destruct (_ && _); [| split; reflexivity].
  destruct (search_atms_by_radius _ _ _ _ _) as [results tool].
  destruct (negb (empty results)); split; reflexivity.
Qed.

Lemma sidebar_load_tool i a :
  search_tool (sidebar_load api i a) = search_tool a \/
  exists file, search_tool (sidebar_load api i a)
               = (load_excel_file api file (search_tool a)).2.
Proof.
  unfold sidebar_load. destruct (uploaded_file i) as [file |]; [| left; reflexivity].
  destruct (load_button i); [| left; reflexivity]. right. exists file.
  destruct (load_excel_file api file (search_tool a)) as [[|] tool]; [| reflexivity].
  destruct (invalid_zips_df tool); reflexivity.
Qed.

Lemma after_main_tool i a :
  search_tool (after (main api sort_values i a))
  = search_tool (sidebar_load api i a) \/
  search_tool (after (main api sort_values i a))
  = main_search api sort_values (search_button i) (search_zip i) (radius_miles i)
      (search_tool (sidebar_load api i a)).
Proof.
  unfold main. destruct (data_loaded _); [| left; reflexivity].
  destruct (df _) as [d |]; [| left; reflexivity].
  destruct (coord_percentage d); [| left; reflexivity].
  destruct (_ || _); [left; reflexivity |]. right. cbn [after].
  rewrite (proj1 (search_branch_tool _ _)). reflexivity.
Qed.

(** A property of the cache and the request log that the resolver
    preserves holds after every run of the page. *)
Section Preservation.

Variable P : state -> Prop.
Hypothesis P_get : forall z s, P s -> P (get_zip_coordinates api z s).2.
Hypothesis P_tables :
  forall s s', zip_coords_cache s' = zip_coords_cache s -> requests s' = requests s ->
               P s -> P s'.

Lemma main_preserves i a :
  P (search_tool a) -> P (search_tool (after (main api sort_values i a))).
Proof.
  intros Ha.
  assert (Hside : P (search_tool (sidebar_load api i a))).
  { destruct (sidebar_load_tool i a) as [-> | [file ->]]; [exact Ha |].
    apply (load_preserves api P P_get P_tables), Ha. }
  destruct (after_main_tool i a) as [-> | ->]; [exact Hside |].
  apply (main_search_preserves api sort_values P P_get P_tables), Hside.
Qed.

Lemma runs_preserve visits a :
  P (search_tool a) -> P (search_tool (runs api sort_values visits a)).
Proof.
  revert a. induction visits as [| i visits IH]; intros a Ha; [exact Ha |].
  cbn. apply IH, main_preserves, Ha.
Qed.

End Preservation.

Lemma get_requested_once z s :
  requested_once s -> requested_once (get_zip_coordinates api z s).2.
Proof.
  intros [Hnd Hiff]. unfold get_zip_coordinates.
  destruct (zip_coords_cache s !! z) as [c |] eqn:Hc; [split; assumption |].
  assert (Hfresh : ~ In z (requests s)).
  { intros Hz. destruct (proj1 (Hiff z) Hz) as [c Hc']. congruence. }
  assert (Hnd' : List.NoDup (requests s ++ [z])).
  { apply List.NoDup_app; [exact Hnd | repeat constructor; intros [] |].
    intros x Hx [<- | []]. exact (Hfresh Hx). }
  assert (Hiff' : forall v z', In z' (requests s ++ [z]) <->
                    is_Some (<[z := v]> (zip_coords_cache s) !! z')).
  { intros v z'. rewrite lookup_insert_is_Some, in_app_iff, <- Hiff. cbn [In].
    destruct (decide (z = z')) as [-> | Hne]; [tauto |]. tauto. }
  destruct (api (length (requests s)) z) as [code [[lat lon] |] |];
    [destruct (code =? 200)%Z | destruct (code =? 200)%Z |];
    split; cbn; auto.
Qed.

(** X17.  Over any sequence of runs of the page from a fresh session, the
    codes requested from the lookup service are exactly the codes in the
    cache, and none is requested twice: the service is asked once for each
    code the session ever needs, whether the answer was coordinates or
    not. *)
Theorem page_requests_each_code_once (visits : list inputs) :
  let s := search_tool (runs api sort_values visits start) in
  List.NoDup (requests s) /\
  (forall z, In z (requests s) <-> is_Some (zip_coords_cache s !! z)) /\
  length (requests s) = size (zip_coords_cache s).
Proof.
  cbv zeta.
  assert (H : requested_once (search_tool (runs api sort_values visits start))).
  { apply runs_preserve.
    - exact get_requested_once.
    - intros s s' Hc Hr [Hnd Hiff]. split; [rewrite Hr; exact Hnd |].
      intros z. rewrite Hr, Hc. apply Hiff.
    - split; [constructor |]. intros z. cbn. rewrite lookup_empty. split; [intros [] |].
      intros [c Hc]. discriminate. }
  destruct H as [Hnd Hiff]. split; [exact Hnd |]. split; [exact Hiff |].
  set (s := search_tool (runs api sort_values visits start)) in *.
  assert (Hdom : list_to_set (requests s) = dom (zip_coords_cache s) :> gset string).
  { apply set_eq. intros z. rewrite elem_of_list_to_set, elem_of_dom, <- Hiff.
    rewrite list_elem_of_In. reflexivity. }
  rewrite <- size_dom, <- Hdom. symmetry. apply size_list_to_set.
  apply NoDup_ListNoDup. exact Hnd.
Qed.

(** ** The table of a loaded session *)

Lemma sidebar_load_ready i a : ready a -> ready (sidebar_load api i a).
Proof.
  intros Ha. unfold sidebar_load. destruct (uploaded_file i) as [file |]; [| exact Ha].
  destruct (load_button i); [| exact Ha].
  destruct (load_excel_file api file (search_tool a)) as [[|] tool] eqn:Hload;
    [| intros H; discriminate].
  assert (Hcols : exists d, df tool = Some d /\
            forall c, In c summary_columns -> has_column c (columns d) = true).
  { destruct file as [f |]; [| discriminate].
    destruct (load_tables api f _ _ Hload) as (d' & Hd' & Hc & _).
    exists d'. split; [exact Hd' | exact Hc]. }
  destruct (invalid_zips_df tool); intros _; exact Hcols.
Qed.

Lemma search_with_columns z c radius s d :
  df s = Some d ->
  exists d', df (search_with sort_values z c radius s).2 = Some d' /\
             (forall col, has_column col (columns d) = true ->
                          has_column col (columns d') = true) /\
             length (rows d') = length (rows d).
Proof.
  intros Hd. unfold search_with. destruct c as [[lat0 lon0] |];
    [| exists d; cbn; repeat split; auto].
  rewrite Hd. destruct (distances _ _ _ _) as [ds |] eqn:Hds;
    [| exists d; cbn; repeat split; auto].
  eexists. split; [reflexivity |]. cbn [columns rows]. split.
  - intros col Hc. apply has_column_add_other, Hc.
  - rewrite <- (length_map record_of), (assign_records _ _ (distances_length _ _ _ _ _ Hds)).
    apply length_map.
Qed.

Lemma main_search_columns button z radius s d :
  df s = Some d ->
  exists d', df (main_search api sort_values button z radius s) = Some d' /\
             (forall col, has_column col (columns d) = true ->
                          has_column col (columns d') = true) /\
             length (rows d') = length (rows d).
Proof.
  intros Hd. unfold main_search.
  destruct (_ && _); [| exists d; repeat split; auto].
  destruct (_ && _); [| exists d; repeat split; auto].
  rewrite search_unfold.
  assert (Hg : df (get_zip_coordinates api z s).2 = Some d)
    by (rewrite (proj1 (get_same_tables api z s)); exact Hd).
  destruct (search_with_columns z (get_zip_coordinates api z s).1 radius _ d Hg)
    as (d' & Hd' & Hc & Hl).
  destruct (search_with _ _ _ _ _) as [results tool]. cbn [snd] in Hd'.
  exists d'. destruct (negb (empty results)); repeat split; assumption.
Qed.

Lemma main_ready i a : ready a -> ready (after (main api sort_values i a)).
Proof.
  intros Ha. pose proof (sidebar_load_ready i a Ha) as Hs.
  unfold main. destruct (data_loaded (sidebar_load api i a)) eqn:Hl; [| exact Hs].
  destruct (df (search_tool (sidebar_load api i a))) as [d |] eqn:Hd; [| exact Hs].
  destruct (coord_percentage d); [| exact Hs].
  destruct (_ || _); [intros _; cbn; rewrite Hd; destruct (Hs Hl) as (d0 & Hd0 & Hc);
                      exists d0; split; [congruence | exact Hc] |].
  cbn [after]. intros _.
  destruct (search_branch_tool i
              (note (coordinate_coverage r) (sidebar_load api i a))) as [-> _].
  cbn [search_tool note].
  destruct (Hs Hl) as (d0 & Hd0 & Hc). rewrite Hd in Hd0. injection Hd0 as <-.
  destruct (main_search_columns (search_button i) (search_zip i) (radius_miles i) _ d Hd)
    as (d' & Hd' & Hc' & _).
  exists d'. split; [exact Hd' |]. intros c Hin. apply Hc', Hc, Hin.
Qed.

Lemma runs_ready visits a : ready a -> ready (runs api sort_values visits a).
Proof.
  revert a. induction visits as [| i visits IH]; intros a Ha; [exact Ha |].
  cbn. apply IH, main_ready, Ha.
Qed.

Lemma start_ready : ready start.
Proof. intros H. discriminate. Qed.

(** X18.  In a session that began fresh, a run of [main] ends in an
    uncaught exception exactly when, after the sidebar has done its load,
    the session is marked as loaded and its table has no row: the
    coverage divides by the number of rows.  In every other case the run
    reaches its last line. *)
Theorem main_raises_on_empty_table (visits : list inputs) (i : inputs) :
  let a := runs api sort_values visits start in
  let loaded := sidebar_load api i a in
  (exists a', main api sort_values i a = Raised a') <->
  (data_loaded loaded = true /\
   exists d, df (search_tool loaded) = Some d /\ rows d = []).
Proof.
  cbv zeta. pose proof (sidebar_load_ready i _ (runs_ready visits start start_ready)) as Hs.
  unfold main.
  destruct (data_loaded (sidebar_load api i (runs api sort_values visits start))) eqn:Hl.
  2:{ split; [intros [a' H]; discriminate | intros [H _]; discriminate]. }
  destruct (Hs Hl) as (d & Hd & Hc). rewrite Hd.
  unfold coord_percentage.
  rewrite (Hc "latitude"), (Hc "longitude"), (Hc "zip"), (Hc "state") by (cbn; tauto).
  cbn [negb orb].
  destruct (rows d) as [| x rs] eqn:Hrows; cbn [length].
  - split; [| intros _; eexists; reflexivity].
    intros _. split; [reflexivity |]. exists d. split; [reflexivity | exact Hrows].
  - split; [intros [a' H]; discriminate |].
    intros [_ (d' & [= <-] & H)]. rewrite Hrows in H. discriminate.
Qed.

(** X19.  A file with the required headers whose postal cells are all
    rejected is loaded as a success: the session is marked as loaded with a
    table without rows, and the run that loads it ends in the division by
    zero, as does every later run that loads no file. *)
Theorem rejected_file_raises (f : frame) (i : inputs) (a : app) :
  let cols := rename (normalize_columns (columns f)) in
  uploaded_file i = Some (Some f) -> load_button i = true ->
  List.NoDup cols ->
  missing_cols cols = [] ->
  has_column "zip_short" cols || has_column "zip" cols = true ->
  (forall x, In x (rows f) -> accepted (staged cols x) = false) ->
  exists a',
    main api sort_values i a = Raised a' /\ data_loaded a' = true /\
    (exists d, df (search_tool a') = Some d /\ rows d = []) /\
    forall i', (uploaded_file i' = None \/ load_button i' = false) ->
               main api sort_values i' a' = Raised a'.
Proof.
  intros cols Hup Hbtn _ Hmiss Hzip Hall.
  destruct (load_steps api f (search_tool a) Hmiss Hzip) as (zs & s1 & _ & Hrest).
  assert (Hload : exists s', load_excel_file api (Some f) (search_tool a) = (true, s')).
  { destruct Hrest as [(d1 & _ & _ & _ & Hl) | (s2 & _ & Hl)]; eexists; exact Hl. }
  destruct Hload as [s' Hload].
  destruct (load_tables api f _ s' Hload) as (d' & Hd' & _ & Hrows & _).
  fold cols in Hrows.
  assert (Hnil : rows d' = []).
  { assert (Hf : List.filter accepted (map (staged cols) (rows f)) = []).
    { destruct (List.filter _ _) as [| x l] eqn:Hf; [reflexivity |].
      assert (Hx : In x (List.filter accepted (map (staged cols) (rows f))))
        by (rewrite Hf; left; reflexivity).
      apply filter_In in Hx as [Hx Hacc]. apply in_map_iff in Hx as (x0 & <- & Hx0).
      rewrite (Hall x0 Hx0) in Hacc. discriminate. }
    rewrite Hf in Hrows. destruct (rows d'); [reflexivity | discriminate]. }
  assert (Hcov : coord_percentage d' = None).
  { unfold coord_percentage. rewrite Hnil. destruct (negb _ || negb _); reflexivity. }
  assert (Hside : data_loaded (sidebar_load api i a) = true /\
                  search_tool (sidebar_load api i a) = s').
  { unfold sidebar_load. rewrite Hup, Hbtn, Hload.
    destruct (invalid_zips_df s'); split; reflexivity. }
  destruct Hside as [Hl Ht].
  exists (sidebar_load api i a). split; [| split; [exact Hl | split]].
  - unfold main. rewrite Hl, Ht, Hd', Hcov. reflexivity.
  - exists d'. rewrite Ht. split; [exact Hd' | exact Hnil].
  - intros i' Hi'.
    assert (Hsame : sidebar_load api i' (sidebar_load api i a) = sidebar_load api i a).
    { unfold sidebar_load at 1. destruct Hi' as [-> | Hb]; [reflexivity |].
      destruct (uploaded_file i'); [rewrite Hb |]; reflexivity. }
    unfold main. rewrite Hsame, Hl, Ht, Hd', Hcov. reflexivity.
Qed.

(** ** The results kept for the map *)

Lemma search_results_mappable z radius s :
  sorts_by_distance sort_values ->
  forallb has_coordinates (rows (search_atms_by_radius api sort_values z radius s).1) = true.
Proof.
  intros Hsort. apply forallb_forall. intros y Hy. rewrite search_unfold in Hy.
  assert (Hperm : forall l, Permutation l (sort_values l)) by (intros l; apply Hsort).
  destruct (search_with_result _ _ _ _ _ _ Hperm Hy)
    as (lat0 & lon0 & d & ds & x & _ & _ & Hds & Hx & Hin & ->).
  destruct (in_radius_miles _ _ Hin) as (m & Hm & _).
  destruct (assigned_miles _ _ _ _ _ _ _ Hds Hx Hm) as (lat & lon & Hlat & Hlon & _).
  unfold has_coordinates, rounded. cbn [latitude longitude set_distance_miles].
  rewrite Hlat, Hlon. reflexivity.
Qed.

Lemma main_mappable i a :
  sorts_by_distance sort_values -> mappable a ->
  mappable (after (main api sort_values i a)).
Proof.
  intros Hsort Ha.
  assert (Hs : mappable (sidebar_load api i a)).
  { unfold sidebar_load. destruct (uploaded_file i) as [file |]; [| exact Ha].
    destruct (load_button i); [| exact Ha].
    destruct (load_excel_file api file (search_tool a)) as [[|] tool]; [| exact Ha].
    destruct (invalid_zips_df tool); exact Ha. }
  unfold main. destruct (data_loaded _); [| exact Hs].
  destruct (df _) as [d |]; [| exact Hs].
  destruct (coord_percentage d) as [p |]; [| exact Hs].
  destruct (_ || _); [exact Hs |]. cbn [after].
  unfold search_branch. destruct (_ && _); [| exact Hs].
  destruct (_ && _); [| exact Hs].
  pose proof (search_results_mappable (search_zip i) (radius_miles i)
                (search_tool (note (coordinate_coverage p) (sidebar_load api i a))) Hsort)
    as Hres.
  destruct (search_atms_by_radius _ _ _ _ _) as [results tool]. cbn [fst] in Hres.
  destruct (negb (empty results)) eqn:He; [| exact Hs].
  intros r [= <-]. split; [apply negb_true_iff, He | exact Hres].
Qed.

Lemma runs_mappable visits a :
  sorts_by_distance sort_values -> mappable a ->
  mappable (runs api sort_values visits a).
Proof.
  intros Hsort. revert a. induction visits as [| i visits IH]; intros a Ha; [exact Ha |].
  cbn. apply IH, main_mappable; assumption.
Qed.

(** X20.  The map section never reports that coordinates are missing:
    whatever was loaded and searched since the session began, the results
    kept for the map are absent or have at least one row and coordinates
    in every row, which the map then shows. *)
Theorem map_always_available (visits : list inputs) :
  sorts_by_distance sort_values ->
  let a := runs api sort_values visits start in
  map_section a <> map_not_available /\
  (forall results, search_results a = Some results ->
                   map_section a = map_of (rows results)).
Proof.
  intros Hsort a.
  assert (Hm : mappable a).
  { apply runs_mappable; [exact Hsort |]. intros r H. discriminate. }
  assert (Hshow : forall results, search_results a = Some results ->
                    map_section a = map_of (rows results)).
  { intros results Hr. destruct (Hm results Hr) as [He Hall].
    unfold map_section. rewrite Hr, He.
    assert (Hd : dropna (rows results) = rows results).
    { unfold dropna. clear -Hall. induction (rows results) as [| x rs IH]; [reflexivity |].
      cbn [forallb] in Hall. apply andb_true_iff in Hall as [Hx Hrs].
      cbn [List.filter]. rewrite Hx, (IH Hrs). reflexivity. }
    rewrite Hd. destruct (rows results) eqn:Hrows; [| reflexivity].
    unfold empty in He. rewrite Hrows in He. destruct (columns results); discriminate. }
  split; [| exact Hshow].
  destruct (search_results a) as [results |] eqn:Hr.
  - rewrite (Hshow results eq_refl). discriminate.
  - unfold map_section. rewrite Hr. discriminate.
Qed.

End WithEnvironment.

Lemma rejected_file_raises_witness :
  let f := Frame headers [postal_row 0 "abc"; postal_row 1 "123456"] in
  let i := Inputs (Some (Some f)) true false EmptyString 10 in
  exists a', main api_not_found stable_sort i start = Raised a' /\ data_loaded a' = true.
Proof.
  intros f i.
  assert (Hnd : List.NoDup (rename (normalize_columns (columns f))))
    by (repeat constructor; cbn; intuition discriminate).
  assert (Hall : forall x, In x (rows f) ->
            accepted (staged (rename (normalize_columns (columns f))) x) = false)
    by (intros x [<- | [<- | []]]; reflexivity).
  destruct (rejected_file_raises api_not_found stable_sort f i start
              eq_refl eq_refl Hnd eq_refl eq_refl Hall)
    as (a' & Hmain & Hl & _).
  exists a'. split; [exact Hmain | exact Hl].
Defined.

Lemma map_always_available_witness :
  let f := Frame headers [postal_row 0 "10001"; postal_row 1 "abc"] in
  let visits := [Inputs (Some (Some f)) true false EmptyString 10;
                 Inputs None false true "10001" 10] in
  map_section (runs (api_at 0 0) stable_sort visits start) <> map_not_available.
Proof.
  intros f visits.
  exact (proj1 (map_always_available (api_at 0 0) stable_sort visits stable_sort_sorts)).
Defined.

End PageLaws.

Module ExportLaws.
Import PyStr Zip Frame Resolver Loader Notions Samples.
Import PyStrFacts ZipFacts LoaderFacts LoadedFacts SearchFacts.
Local Open Scope nat_scope.
Local Open Scope string_scope.

Lemma rejected_not_cleaned x : accepted x = false -> cleaned_zip (processed x) = None.
Proof.
  unfold accepted, processed. cbn [cleaned_zip set_cleaned_zip].
  rewrite valid_mask_clean_zip. destruct (clean_zip _); [discriminate | reflexivity].
Qed.

(** X21.  After [process_zip_codes] has rejected a row, the table
    [export_invalid_zips] writes holds the rejected rows and no other, in
    their order, each with a diagnosis in [zip_issue] and nothing in
    [cleaned_zip]; when no row is rejected the export is what it was before,
    [None] in a fresh session. *)
Theorem export_lists_rejected_rows (zip_source : string) (s : state) (d : frame) :
  df s = Some d ->
  let rejected := List.filter (fun x => negb (accepted x)) (rows d) in
  exists s',
    process_zip_codes zip_source s = Some s' /\
    (rejected = [] -> export_invalid_zips s' = export_invalid_zips s) /\
    (rejected <> [] ->
     export_invalid_zips s'
     = Some (Frame (add_column "zip_issue" (add_column "cleaned_zip" (columns d)))
                   (map (fun x => diagnosed (processed x)) rejected))) /\
    (forall x, In x rejected ->
       cleaned_zip (diagnosed (processed x)) = None /\
       zip_issue (diagnosed (processed x))
       = Some (diagnose_zip_issue (working_zip (processed x)) None)).
Proof.
  intros Hd rejected.
  destruct (process_zip_codes_spec zip_source s d Hd) as (s' & Hp & _ & Hinv & _).
  rewrite filter_map in Hinv.
  change (fun x => negb (valid_mask (cleaned_zip (processed x))))
    with (fun x => negb (accepted x)) in Hinv. fold rejected in Hinv.
  exists s'. split; [exact Hp |]. split; [| split].
  - intros Hnil. rewrite Hnil in Hinv. unfold export_invalid_zips. rewrite Hinv. reflexivity.
  - intros Hne. unfold export_invalid_zips. rewrite Hinv.
    destruct rejected as [| x l]; [contradiction |]. cbn [map columns rows].
    rewrite !map_map. reflexivity.
  - intros x Hx. apply filter_In in Hx as [_ Hacc]. apply negb_true_iff in Hacc.
    pose proof (rejected_not_cleaned x Hacc) as Hc.
    unfold diagnosed. cbn [cleaned_zip zip_issue set_zip_issue]. rewrite Hc.
    split; reflexivity.
Qed.

Lemma export_lists_rejected_rows_witness :
  let rs := [working_row 0 "10001"; working_row 1 "abc"; working_row 2 "123456"] in
  exists s',
    process_zip_codes "zip" (pending rs) = Some s' /\
    option_map (fun t => map (fun x => (index x, zip_issue x)) (rows t))
               (export_invalid_zips s')
    = Some [(1, Some "Missing/Empty zip code"); (2, Some "Unusual zip length (6 digits)")].
Proof.
  intros rs.
  destruct (export_lists_rejected_rows "zip" (pending rs) (pending_frame rs) eq_refl)
    as (s' & Hp & _ & Hne & _).
  exists s'. split; [exact Hp |]. rewrite Hne by discriminate. reflexivity.
Defined.

End ExportLaws.

Module ResultLaws.
Import Haversine PyStr Frame Resolver Loader Search Samples Notions.
Import HaversineFacts LoadedFacts ResolverFacts SearchFacts SearchTheorems SearchLaws.
Local Open Scope string_scope.

(** ** A call of [haversine_distance] that returns *)

(** X23.  With the arithmetic read over the reals, a call of
    [haversine_distance] that returns gives the great-circle distance of
    the haversine formula on a sphere of radius 3956, its arguments being
    degrees; that distance is not negative, the call with the two points
    exchanged returns the same distance, and from a point to itself the
    call returns 0.  Nothing is said of a call that raises. *)
Theorem haversine_distance_returns (lat1 lon1 lat2 lon2 d : R) :
  haversine_distance lat1 lon1 lat2 lon2 = Some d ->
  d = great_circle 3956 lat1 lon1 lat2 lon2 /\
  0 <= d /\
  haversine_distance lat2 lon2 lat1 lon1 = Some d /\
  haversine_distance lat1 lon1 lat1 lon1 = Some 0.
Proof.
  rewrite haversine_is_great_circle. intros [= <-].
  split; [reflexivity |]. split; [apply great_circle_bounds; lra |].
  split.
  - rewrite haversine_is_great_circle. f_equal. apply great_circle_sym.
  - rewrite haversine_is_great_circle, great_circle_refl. reflexivity.
Qed.

Lemma haversine_distance_returns_witness :
  haversine_distance 40 (-74) 40 (-74) = Some 0 /\
  0 = great_circle 3956 40 (-74) 40 (-74).
Proof.
  assert (H : haversine_distance 40 (-74) 40 (-74) = Some 0)
    by (rewrite haversine_is_great_circle, great_circle_refl; reflexivity).
  split; [exact H |].
  exact (proj1 (haversine_distance_returns 40 (-74) 40 (-74) 0 H)).
Defined.

(** ** A search that shows no error *)

Lemma distances_row_miles cols lat0 lon0 rs ds :
  distances cols lat0 lon0 rs = Some ds -> ds = map (row_miles lat0 lon0) rs.
Proof.
  revert ds. induction rs as [| x rs IH]; intros ds; cbn [distances].
  - intros [= <-]. reflexivity.
  - destruct (row_distance cols lat0 lon0 x) as [dx |] eqn:Hx; [| discriminate].
    destruct (distances cols lat0 lon0 rs) as [ds' |]; [| discriminate].
    intros [= <-]. cbn [map]. f_equal; [| apply IH; reflexivity].
    unfold row_distance in Hx. unfold row_miles.
    destruct (negb (has_column "latitude" cols)); [discriminate |].
    destruct (latitude x) as [lat |]; [| congruence].
    destruct (negb (has_column "longitude" cols)); [discriminate |].
    destruct (longitude x) as [lon |]; [| congruence].
    rewrite haversine_is_great_circle in Hx. cbn in Hx. congruence.
Qed.

Lemma not_shown {A} (l : list A) (e : A) : (l ++ [e])%list <> l.
Proof.
  intros H. apply (f_equal (@length A)) in H. rewrite length_app in H. cbn in H. lia.
Qed.

Section WithEnvironment.

Variable api : nat -> string -> http_result.
Variable sort_values : list row -> list row.

(** X22.  A search that shows no error, for a target that resolves to
    [(lat0, lon0)], returns exactly the rows of the table that have both
    coordinates and lie within the radius of the target, each once and with
    its distance rounded to two decimals, in ascending order of the
    distance and of the rounded distance shown; no row lacking a
    coordinate is among them.  The distance of a row is its great-circle
    distance, the arithmetic being read over the reals; the order of rows
    at equal distance is left to [sort_values].  A search in which a
    distance cannot be computed shows an error and is not covered. *)
Theorem search_returns_rows_within_radius (z : string) (radius : R) (s : state)
    (lat0 lon0 : R) (d : frame) :
  sorts_by_distance sort_values ->
  (get_zip_coordinates api z s).1 = Some (lat0, lon0) ->
  df s = Some d ->
  ui (search_atms_by_radius api sort_values z radius s).2 = ui s ->
  let result := rows (search_atms_by_radius api sort_values z radius s).1 in
  Permutation result
    (map (fun x => rounded (measured lat0 lon0 x))
         (List.filter (within lat0 lon0 radius) (rows d))) /\
  Sorted (fun a b => distance_le (row_miles lat0 lon0 a) (row_miles lat0 lon0 b)) result /\
  Sorted by_column result /\
  (forall y, In y result ->
     exists lat lon, latitude y = Some lat /\ longitude y = Some lon /\
                     (great_circle 3956 lat0 lon0 lat lon <= radius)%R).
Proof.
  intros Hsort Hres Hdf. cbv zeta. rewrite search_unfold, Hres.
  destruct (get_same_tables api z s) as (Hdf' & _ & Hui).
  unfold search_with. rewrite Hdf', Hdf.
  destruct (distances (columns d) lat0 lon0 (rows d)) as [ds |] eqn:Hds.
  2:{ cbn [snd ui show]. rewrite Hui. intros H. destruct (not_shown _ _ H). }
  intros _. cbn [fst rows].
  rewrite (distances_row_miles _ _ _ _ _ Hds), assign_distances_map.
  change (fun x => set_distance_miles (row_miles lat0 lon0 x) x) with (measured lat0 lon0).
  rewrite filter_map.
  assert (Hkeep : List.filter (fun x => in_radius radius (measured lat0 lon0 x)) (rows d)
                  = List.filter (within lat0 lon0 radius) (rows d)).
  { apply filter_ext. intros x. apply keep_measured. }
  rewrite Hkeep.
  set (l := map (measured lat0 lon0) (List.filter (within lat0 lon0 radius) (rows d))).
  destruct (Hsort l) as [Hperm Hsorted].
  assert (Hin : forall y, In y (sort_values l) ->
            exists x, y = measured lat0 lon0 x /\ within lat0 lon0 radius x = true).
  { intros y Hy. apply (Permutation_in _ (Permutation_sym Hperm)) in Hy.
    unfold l in Hy. apply in_map_iff in Hy as (x & <- & Hx).
    apply filter_In in Hx as [_ Hx]. eauto. }
  repeat split.
  - rewrite <- (map_map (measured lat0 lon0) rounded). fold l.
    apply Permutation_map, Permutation_sym, Hperm.
  - apply Sorted_map. cbn. eapply Sorted_in; [| exact Hsorted].
    intros a b Ha Hb Hab. destruct (Hin a Ha) as (xa & -> & _), (Hin b Hb) as (xb & -> & _).
    exact Hab.
  - apply Sorted_map. eapply Sorted_in; [| exact Hsorted].
    intros a b _ _ Hab. apply round_distance_mono, Hab.
  - intros y Hy. apply in_map_iff in Hy as (y' & <- & Hy').
    destruct (Hin y' Hy') as (x & -> & Hx). exact (within_true _ _ _ _ Hx).
Qed.

End WithEnvironment.

Lemma search_returns_rows_within_radius_witness :
  let s := loaded [located_row 0 0 0; unlocated_row 1] in
  let out := search_atms_by_radius (api_at 0 0) stable_sort "10001" 10 s in
  ui out.2 = ui s /\
  Permutation (rows out.1) [rounded (measured 0 0 (located_row 0 0 0))] /\
  Sorted by_column (rows out.1).
Proof.
  intros s out.
  assert (Hui : ui out.2 = ui s).
  { unfold out. rewrite (search_resolved (api_at 0 0) stable_sort "10001" 10 s 0 0
                           (loaded_frame [located_row 0 0 0; unlocated_row 1])
                           eq_refl eq_refl eq_refl eq_refl).
    reflexivity. }
  split; [exact Hui |].
  destruct (search_returns_rows_within_radius (api_at 0 0) stable_sort "10001" 10 s 0 0
              (loaded_frame [located_row 0 0 0; unlocated_row 1])
              stable_sort_sorts eq_refl eq_refl Hui)
    as (Hperm & _ & Hsorted & _).
  split; [| exact Hsorted].
  cbn [rows loaded_frame List.filter] in Hperm.
  rewrite within_at_target in Hperm by lra. exact Hperm.
Defined.

End ResultLaws.
